(** * Kow Tattys: backend binding, data-access facade, admin gate,
      booking wizard and realtime adapter

    A shallow embedding of [src/lib/supabase.ts], [src/middleware.ts] and
    of the booking-form submit handler, followed by the properties the
    specification states about them.

    The hosted backend (row store, object store, auth service, realtime
    feed) is an external collaborator.  It is modelled just far enough to
    run the code against it: tables are lists of JSON rows, a [.single()]
    query answers with error code [PGRST116] unless exactly one row comes
    back, and a schedule of outcomes lets the environment make any
    round trip fail. *)

From Stdlib Require Import ZArith String Ascii List DecimalString Lia.
From stdpp Require Import base option strings list gmap fin_maps.

Open Scope string_scope.

(** * JavaScript prelude *)

Module JS.

(** Truthiness of a [string | undefined]: [undefined] and the empty
    string are falsy. *)
Definition truthy (v : option string) : bool :=
  match v with
  | Some s => negb (s =? "")
  | None => false
  end.

(** [a || b] on [string | undefined] operands with a string fallback. *)
Definition or_else (a : option string) (b : string) : string :=
  match a with
  | Some s => if s =? "" then b else s
  | None => b
  end.

(** Template-literal rendering of an integral number. *)
Definition show (n : Z) : string := NilZero.string_of_int (Z.to_int n).

Definition is_upper (c : ascii) : bool :=
  (Nat.leb 65 (nat_of_ascii c) && Nat.leb (nat_of_ascii c) 90)%bool.
Definition is_lower (c : ascii) : bool :=
  (Nat.leb 97 (nat_of_ascii c) && Nat.leb (nat_of_ascii c) 122)%bool.
Definition is_digit (c : ascii) : bool :=
  (Nat.leb 48 (nat_of_ascii c) && Nat.leb (nat_of_ascii c) 57)%bool.
Definition is_dot (c : ascii) : bool := Nat.eqb (nat_of_ascii c) 46.

(** [s.replace(/[^...]/g, "")]: keep the characters of the class. *)
Fixpoint keep (cls : ascii -> bool) (s : string) : string :=
  match s with
  | EmptyString => EmptyString
  | String c rest => if cls c then String c (keep cls rest) else keep cls rest
  end.

(** The class [[a-zA-Z0-9.]]. *)
Definition alnum_dot (c : ascii) : bool :=
  (is_lower c || is_upper c || is_digit c || is_dot c)%bool.

(** The class [[a-zA-Z0-9]]. *)
Definition alnum (c : ascii) : bool :=
  (is_lower c || is_upper c || is_digit c)%bool.

(** Membership of a character in a string. *)
Fixpoint occurs (c : ascii) (s : string) : bool :=
  match s with
  | EmptyString => false
  | String d rest => (Ascii.eqb c d || occurs c rest)%bool
  end.

(** [encodeURI].  A string is held as its UTF-8 bytes: the letters,
    the digits and the reserved and unreserved marks of a URI stay, and
    every other byte becomes [%XX] in upper-case hexadecimal. *)
Definition uri_kept (c : ascii) : bool :=
  (alnum c || occurs c ";/?:@&=+$,-_.!~*'()#")%bool.

Definition hex_digit (n : nat) : ascii :=
  ascii_of_nat (if Nat.ltb n 10 then 48 + n else 55 + n).

Definition percent (c : ascii) : string :=
  String "%" (String (hex_digit (Nat.div (nat_of_ascii c) 16))
                (String (hex_digit (Nat.modulo (nat_of_ascii c) 16)) EmptyString)).

Fixpoint encodeURI (s : string) : string :=
  match s with
  | EmptyString => EmptyString
  | String c rest =>
      if uri_kept c then String c (encodeURI rest)
      else percent c ++ encodeURI rest
  end.

End JS.

(** * Results of asynchronous calls

    An [async] function either resolves with a value or rejects with the
    thrown error; effects made before the throw stay. *)

Record BackendError := { code : string; message : string }.

#[global] Instance BackendError_eq_dec : EqDecision BackendError.
Proof. solve_decision. Defined.

Inductive Result (A : Type) : Type :=
| Ok (a : A)
| Throw (e : BackendError).
Arguments Ok {A} a.
Arguments Throw {A} e.

Definition M (S A : Type) : Type := S -> Result A * S.

#[global] Instance M_ret {S} : MRet (M S) := fun A a s => (Ok a, s).

#[global] Instance M_bind {S} : MBind (M S) := fun A B f m s =>
  match m s with
  | (Ok a, s') => f a s'
  | (Throw e, s') => (Throw e, s')
  end.

Definition throw {S A} (e : BackendError) : M S A := fun s => (Throw e, s).
Definition get {S} : M S S := fun s => (Ok s, s).
Definition modify {S} (f : S -> S) : M S unit := fun s => (Ok tt, f s).

(** * Backend client binding *)

Module Binding.

(** [import.meta.env]: each variable is a string or undefined. *)
Record Env := {
  PUBLIC_SUPABASE_URL : option string;
  PUBLIC_SUPABASE_ANON_KEY : option string;
  SUPABASE_SERVICE_ROLE_KEY : option string;
  SSR : bool
}.

Record AuthOptions := {
  persistSession : bool;
  autoRefreshToken : bool;
  detectSessionInUrl : bool
}.

(** What a constructed client is bound to.  [client_auth = None] means
    that no options were passed, so the library's defaults apply. *)
Record Client := {
  client_url : string;
  client_key : string;
  client_auth : option AuthOptions
}.

(** The options a client runs with when none are passed: the library
    turns the three of them on. *)
Definition library_defaults : AuthOptions :=
  {| persistSession := true; autoRefreshToken := true; detectSessionInUrl := true |}.

(** The session options in force for a client. *)
Definition session_options (c : Client) : AuthOptions :=
  default library_defaults (client_auth c).

Section Library.

(** The library's check of a non-empty URL: the message it throws with
    when it does not take the URL ("Invalid supabaseUrl: ..."), [None]
    when it does. *)
Variable url_error : string -> option string.

(** The library constructor: it rejects an empty URL ("supabaseUrl is
    required."), a URL that fails its check, and an empty key
    ("supabaseKey is required."). *)
Definition createClient (url key : string) (opts : option AuthOptions)
  : Result Client :=
  if url =? "" then Throw {| code := ""; message := "supabaseUrl is required." |}
  else match url_error url with
       | Some msg => Throw {| code := ""; message := msg |}
       | None =>
           if key =? ""
           then Throw {| code := ""; message := "supabaseKey is required." |}
           else Ok {| client_url := url; client_key := key; client_auth := opts |}
       end.

Definition supabaseUrl (env : Env) : string :=
  JS.or_else (PUBLIC_SUPABASE_URL env) "".
Definition supabaseAnonKey (env : Env) : string :=
  JS.or_else (PUBLIC_SUPABASE_ANON_KEY env) "".
Definition supabaseServiceKey (env : Env) : string :=
  JS.or_else (SUPABASE_SERVICE_ROLE_KEY env) "".

Definition isServer (env : Env) : bool := SSR env.

Definition supabaseKey (env : Env) : string :=
  if isServer env
  then JS.or_else (Some (supabaseServiceKey env)) (supabaseAnonKey env)
  else supabaseAnonKey env.

(** [supabaseUrl && supabaseKey] as a condition. *)
Definition configured (env : Env) : bool :=
  (JS.truthy (Some (supabaseUrl env)) && JS.truthy (Some (supabaseKey env)))%bool.

(** The [console.warn] of the validation block. *)
Definition warns (env : Env) : bool := (negb (configured env) && isServer env)%bool.

Definition placeholder_url : string := "https://placeholder.supabase.co".
Definition placeholder_key : string := "placeholder-key".

(** The module-level [export const supabase]. *)
Definition supabase (env : Env) : Result Client :=
  if configured env
  then createClient (supabaseUrl env) (supabaseKey env)
         (Some {| persistSession := negb (isServer env);
                  autoRefreshToken := negb (isServer env);
                  detectSessionInUrl := negb (isServer env) |})
  else createClient placeholder_url placeholder_key None.

End Library.

End Binding.

(** * The hosted backend as seen by the client *)

Module Backend.

(** JSON values stored in rows. *)
Inductive Value :=
| VNull
| VBool (b : bool)
| VNum (n : Z)
| VStr (s : string)
| VList (l : list string).

#[global] Instance Value_eq_dec : EqDecision Value.
Proof. solve_decision. Defined.

(** A row, a patch ([Partial<T>]) and an insert payload are all plain
    objects: finite maps from field names to values. *)
Abbreviation Row := (gmap string Value).

(** ** Query builder *)

Inductive Verb :=
| VSelect
| VInsert (row : Row)
| VUpdate (patch : Row)
| VDelete.

Inductive Columns :=
| AllColumns
| Column (c : string).

Record Query := {
  q_table : string;
  q_verb : Verb;
  q_columns : Columns;
  q_filters : list (string * Value);
  q_returning : bool;
  q_single : bool
}.

(** [supabase.from(t)] *)
Definition from (t : string) : string := t.

Definition start (v : Verb) (ret : bool) (cols : Columns) (t : string) : Query :=
  {| q_table := t; q_verb := v; q_columns := cols; q_filters := [];
     q_returning := ret; q_single := false |}.

(** [.select("*")], [.select("value")] on a table. *)
Definition select (cols : Columns) (t : string) : Query := start VSelect true cols t.
(** [.insert(row)], [.update(patch)], [.delete()] on a table. *)
Definition insert (row : Row) (t : string) : Query := start (VInsert row) false AllColumns t.
Definition update (patch : Row) (t : string) : Query := start (VUpdate patch) false AllColumns t.
Definition delete_ (t : string) : Query := start VDelete false AllColumns t.

(** [.eq(column, value)] *)
Definition eq (c : string) (v : Value) (q : Query) : Query :=
  {| q_table := q_table q; q_verb := q_verb q; q_columns := q_columns q;
     q_filters := q_filters q ++ [(c, v)];
     q_returning := q_returning q; q_single := q_single q |}.

(** [.select()] chained on a mutation: send the affected rows back. *)
Definition returning (q : Query) : Query :=
  {| q_table := q_table q; q_verb := q_verb q; q_columns := q_columns q;
     q_filters := q_filters q;
     q_returning := true; q_single := q_single q |}.

(** [.single()] *)
Definition single (q : Query) : Query :=
  {| q_table := q_table q; q_verb := q_verb q; q_columns := q_columns q;
     q_filters := q_filters q;
     q_returning := q_returning q; q_single := true |}.

Inductive Data :=
| DNull
| DRow (r : Row)
| DRows (rs : list Row).

Record Response := { data : Data; error : option BackendError }.

(** ** Object store *)

Record File := { file_name : string; file_body : string }.

Record StoredObject := { obj_bucket : string; obj_path : string; obj_file : File }.

(** What the environment does with one upload: store it, answer with
    an error object, or make the call itself reject. *)
Inductive StorageOutcome :=
| Stored
| Refused (e : BackendError)
| Crashed (e : BackendError).

Record UploadData := { up_path : string }.

Record UploadResponse := {
  up_data : option UploadData;
  up_error : option BackendError
}.

(** ** The world behind the client handle *)

Inductive Call :=
| CallDb (q : Query)
| CallUpload (bucket path : string).

Record World := {
  tables : gmap string (list Row);
  (** outcome of the coming row-store round trips: [Some e] fails the
      round trip with [e]; past the end nothing fails *)
  db_faults : list (option BackendError);
  objects : list StoredObject;
  storage_faults : list StorageOutcome;
  (** [Date.now()] *)
  clock : Z;
  (** base URL of the project *)
  endpoint : string;
  (** every call issued to the backend, oldest first *)
  calls : list Call;
  (** the columns the schema fills in when a row is inserted into the
      named table holding the given rows (an [id], [created_at], other
      column defaults): the backend's business *)
  generated : string -> list Row -> Row
}.

Definition set_tables (x : gmap string (list Row)) (w : World) : World :=
  {| tables := x; db_faults := db_faults w; objects := objects w;
     storage_faults := storage_faults w; clock := clock w;
     endpoint := endpoint w; calls := calls w; generated := generated w |}.
Definition set_db_faults (x : list (option BackendError)) (w : World) : World :=
  {| tables := tables w; db_faults := x; objects := objects w;
     storage_faults := storage_faults w; clock := clock w;
     endpoint := endpoint w; calls := calls w; generated := generated w |}.
Definition set_objects (x : list StoredObject) (w : World) : World :=
  {| tables := tables w; db_faults := db_faults w; objects := x;
     storage_faults := storage_faults w; clock := clock w;
     endpoint := endpoint w; calls := calls w; generated := generated w |}.
Definition set_storage_faults (x : list StorageOutcome) (w : World) : World :=
  {| tables := tables w; db_faults := db_faults w; objects := objects w;
     storage_faults := x; clock := clock w;
     endpoint := endpoint w; calls := calls w; generated := generated w |}.
Definition log (c : Call) (w : World) : World :=
  {| tables := tables w; db_faults := db_faults w; objects := objects w;
     storage_faults := storage_faults w; clock := clock w;
     endpoint := endpoint w; calls := calls w ++ [c];
     generated := generated w |}.

Definition table_rows (t : string) (w : World) : list Row :=
  default [] (tables w !! t).

(** ** Row-store semantics *)

Definition pgrst116 : BackendError :=
  {| code := "PGRST116";
     message := "JSON object requested, multiple (or no) rows returned" |}.

Definition matches (fs : list (string * Value)) (r : Row) : bool :=
  forallb (fun f => bool_decide (r !! f.1 = Some f.2)) fs.

Definition project (cols : Columns) (r : Row) : Row :=
  match cols with
  | AllColumns => r
  | Column c => match r !! c with Some v => {[ c := v ]} | None => ∅ end
  end.

(** New table contents and affected rows.  An inserted row is stored
    with the columns of [fill] it does not give itself.  A patch
    overwrites the fields it names and leaves the others. *)
Definition apply_verb (fill : Row) (q : Query) (t : list Row) : list Row * list Row :=
  match q_verb q with
  | VSelect => (t, List.filter (matches (q_filters q)) t)
  | VInsert row => ((t ++ [row ∪ fill])%list, [row ∪ fill])
  | VUpdate p =>
      (map (fun r => if matches (q_filters q) r then p ∪ r else r) t,
       map (fun r => p ∪ r) (List.filter (matches (q_filters q)) t))
  | VDelete =>
      (List.filter (fun r => negb (matches (q_filters q) r)) t,
       List.filter (matches (q_filters q)) t)
  end.

Definition answer (q : Query) (rows : list Row) : Response :=
  if q_single q then
    match rows with
    | [r] => {| data := DRow r; error := None |}
    | _ => {| data := DNull; error := Some pgrst116 |}
    end
  else {| data := if q_returning q then DRows rows else DNull; error := None |}.

Definition commit (q : Query) (t' : list Row) (w : World) : World :=
  match q_verb q with
  | VSelect => w
  | _ => set_tables (<[q_table q := t']> (tables w)) w
  end.

(** [await query]: one round trip.  A request that is answered with an
    error leaves the tables as they were. *)
Definition exec (q : Query) : M World Response := fun w =>
  let w := log (CallDb q) w in
  match db_faults w with
  | Some e :: rest =>
      (Ok {| data := DNull; error := Some e |}, set_db_faults rest w)
  | _ =>
      let w := set_db_faults (tail (db_faults w)) w in
      let t := table_rows (q_table q) w in
      let '(t', rows) := apply_verb (generated w (q_table q) t) q t in
      let r := answer q (map (project (q_columns q)) rows) in
      match error r with
      | Some _ => (Ok r, w)
      | None => (Ok r, commit q t' w)
      end
  end.

(** ** Object-store semantics *)

Definition is_slash (c : ascii) : bool := Ascii.eqb c "/".

(** [path.replace(/^\/+/, '')] *)
Fixpoint drop_leading_slashes (path : string) : string :=
  match path with
  | String c rest => if is_slash c then drop_leading_slashes rest else path
  | EmptyString => EmptyString
  end.

(** The two matches of [/^\/|\/$/g]: one slash at the start, then one at
    the end. *)
Definition drop_leading_slash (path : string) : string :=
  match path with
  | String c rest => if is_slash c then rest else path
  | EmptyString => EmptyString
  end.

Fixpoint drop_trailing_slash (path : string) : string :=
  match path with
  | EmptyString => EmptyString
  | String c rest =>
      match rest with
      | EmptyString => if is_slash c then EmptyString else path
      | _ => String c (drop_trailing_slash rest)
      end
  end.

(** [path.replace(/\/+/g, '/')] *)
Fixpoint collapse_slashes (path : string) : string :=
  match path with
  | EmptyString => EmptyString
  | String c rest =>
      if is_slash c
      then match rest with
           | String d _ => if is_slash d then collapse_slashes rest
                           else String c (collapse_slashes rest)
           | EmptyString => String c EmptyString
           end
      else String c (collapse_slashes rest)
  end.

(** The key an upload is stored under, as the storage client cleans the
    path it is given:
    [path.replace(/^\/|\/$/g, '').replace(/\/+/g, '/')]. *)
Definition clean_key (path : string) : string :=
  collapse_slashes (drop_trailing_slash (drop_leading_slash path)).

(** [storage.from(bucket).upload(path, file)]: the answer carries the
    cleaned path. *)
Definition storage_upload (bucket path : string) (file : File)
  : M World UploadResponse := fun w =>
  let w := log (CallUpload bucket path) w in
  match storage_faults w with
  | Refused e :: rest =>
      (Ok {| up_data := None; up_error := Some e |}, set_storage_faults rest w)
  | Crashed e :: rest =>
      (Throw e, set_storage_faults rest w)
  | _ =>
      (Ok {| up_data := Some {| up_path := clean_key path |}; up_error := None |},
       set_objects
         (objects w ++ [{| obj_bucket := bucket; obj_path := clean_key path;
                           obj_file := file |}])
         (set_storage_faults (tail (storage_faults w)) w))
  end.

(** The URL [getPublicUrl] answers with for a path in a bucket of the
    project at [base]:
    [encodeURI(`${base}/storage/v1/object/public/${bucket}/${path minus its
    leading slashes}`)]. *)
Definition public_url (base bucket path : string) : string :=
  JS.encodeURI (base ++ "/storage/v1/object/public/" ++ bucket ++ "/"
                  ++ drop_leading_slashes path).

(** [storage.from(bucket).getPublicUrl(path)] builds a URL locally. *)
Definition getPublicUrl (bucket path : string) : M World string := fun w =>
  (Ok (public_url (endpoint w) bucket path), w).

(** [Date.now()] *)
Definition Date_now : M World Z := fun w => (Ok (clock w), w).

End Backend.

(** Method chaining: [x |> f |> g] reads [x.f().g()]. *)
Notation "x |> f" := (f x) (at level 45, left associativity, only parsing).

(** * Typed data-access facade ([src/lib/supabase.ts]) *)

Module Facade.
Import Backend.

Inductive BookingStatus := pending | accepted | denied.

Definition status_text (s : BookingStatus) : string :=
  match s with
  | pending => "pending"
  | accepted => "accepted"
  | denied => "denied"
  end.

(** ** Content images *)

Definition updateContentImage (id : string) (updates : Row) : M World Data :=
  r ← exec (from "content_images" |> update updates |> eq "id" (VStr id)
            |> returning |> single);
  match error r with
  | Some e => throw e
  | None => mret (data r)
  end.

Definition deleteContentImage (id : string) : M World unit :=
  r ← exec (from "content_images" |> delete_ |> eq "id" (VStr id));
  match error r with
  | Some e => throw e
  | None => mret tt
  end.

(** ** Site settings *)

(** [data?.value ?? null] *)
Definition value_or_null (d : Data) : Value :=
  match d with
  | DRow r => default VNull (r !! "value")
  | _ => VNull
  end.

Definition getSiteSetting (key : string) : M World Value :=
  r ← exec (from "site_settings" |> select (Column "value")
            |> eq "key" (VStr key) |> single);
  match error r with
  | Some e => if code e =? "PGRST116" then mret VNull else throw e
  | None => mret (value_or_null (data r))
  end.

(** ** Bookings *)

Definition getBookingById (id : string) : M World Data :=
  r ← exec (from "bookings" |> select AllColumns |> eq "id" (VStr id) |> single);
  match error r with
  | Some e => throw e
  | None => mret (data r)
  end.

Definition getBookingByToken (token : string) : M World Data :=
  r ← exec (from "bookings" |> select AllColumns
            |> eq "client_access_token" (VStr token) |> single);
  match error r with
  | Some e => if code e =? "PGRST116" then mret DNull else throw e
  | None => mret (data r)
  end.

(** The patch built by [updateBookingStatus]: [{ status }], plus
    [admin_notes] when [adminNotes !== undefined]. *)
Definition status_updates (status : BookingStatus) (adminNotes : option string) : Row :=
  let updates : Row := {[ "status" := VStr (status_text status) ]} in
  match adminNotes with
  | Some notes => <[ "admin_notes" := VStr notes ]> updates
  | None => updates
  end.

Definition updateBookingStatus (id : string) (status : BookingStatus)
    (adminNotes : option string) : M World Data :=
  let updates := status_updates status adminNotes in
  r ← exec (from "bookings" |> update updates |> eq "id" (VStr id)
            |> returning |> single);
  match error r with
  | Some e => throw e
  | None => mret (data r)
  end.

Definition updateBooking (id : string) (updates : Row) : M World Data :=
  r ← exec (from "bookings" |> update updates |> eq "id" (VStr id)
            |> returning |> single);
  match error r with
  | Some e => throw e
  | None => mret (data r)
  end.

(** ** Storage *)

Record Uploaded := { path : string; publicUrl : string }.

(** [file.name.replace(/[^a-zA-Z0-9.]/g, "")] *)
Definition sanitize (name : string) : string := JS.keep JS.alnum_dot name.

Definition type_error : BackendError :=
  {| code := ""; message := "TypeError: Cannot read properties of null" |}.

Definition uploadImage (bucket : string) (file : File) (path : option string)
  : M World Uploaded :=
  fileName ← (if JS.truthy path then mret (JS.or_else path "")
              else now ← Date_now;
                   mret (JS.show now ++ "-" ++ sanitize (file_name file)));
  r ← storage_upload bucket fileName file;
  match up_error r with
  | Some e => throw e
  | None =>
      url ← getPublicUrl bucket fileName;
      match up_data r with
      | Some d => mret {| path := up_path d; publicUrl := url |}
      | None => throw type_error
      end
  end.

End Facade.

(** * Request-scoped authentication gate ([src/middleware.ts]) *)

Module Middleware.

Record Request := {
  pathname : string;
  (** [cookies.get(name)?.value] is [cookies !! name] *)
  cookies : gmap string string
}.

Inductive Response :=
| Redirected (location : string)
| Rendered.

Section Gate.

(** The auth half of the client is left abstract: whatever state it
    keeps, whatever [setSession] makes of a pair of tokens, whatever
    session [getSession] reports. *)
Context {AuthClient User Session : Type}.
Variable session_user : Session -> User.
Variable auth_setSession : string -> string -> AuthClient -> AuthClient.
Variable auth_getSession : AuthClient -> option Session * AuthClient.

Record Locals := {
  locals_user : option User;
  locals_session : option Session
}.

Inductive Event :=
| EvSetSession (access_token refresh_token : string)
| EvGetSession
| EvRedirect (location : string)
| EvNext (seen : Locals).

(** Per-request state: the shared client, [locals], and what happened
    so far, oldest first. *)
Record Gate := {
  auth : AuthClient;
  locals : Locals;
  trace : list Event
}.

Definition emit (e : Event) (g : Gate) : Gate :=
  {| auth := auth g; locals := locals g; trace := trace g ++ [e] |}.

(** [await supabase.auth.setSession({ access_token, refresh_token })] *)
Definition setSession (a r : string) : M Gate unit := fun g =>
  let g := emit (EvSetSession a r) g in
  (Ok tt, {| auth := auth_setSession a r (auth g);
             locals := locals g; trace := trace g |}).

(** [await supabase.auth.getSession()], keeping [data.session] *)
Definition getSession : M Gate (option Session) := fun g =>
  let g := emit EvGetSession g in
  let (s, c) := auth_getSession (auth g) in
  (Ok s, {| auth := c; locals := locals g; trace := trace g |}).

Definition redirect (location : string) : M Gate Response := fun g =>
  (Ok (Redirected location), emit (EvRedirect location) g).

(** [next()]: the page handler runs and sees the current [locals]. *)
Definition next : M Gate Response := fun g =>
  (Ok Rendered, emit (EvNext (locals g)) g).

Definition set_locals_user (u : User) : M Gate unit := fun g =>
  (Ok tt, {| auth := auth g;
             locals := {| locals_user := Some u;
                          locals_session := locals_session (locals g) |};
             trace := trace g |}).

Definition set_locals_session (s : Session) : M Gate unit := fun g =>
  (Ok tt, {| auth := auth g;
             locals := {| locals_user := locals_user (locals g);
                          locals_session := Some s |};
             trace := trace g |}).

Definition onRequest (req : Request) : M Gate Response :=
  let isAdminPath := String.prefix "/admin" (pathname req) in
  let isLoginPage := pathname req =? "/admin/login" in
  let accessToken := cookies req !! "sb-access-token" in
  let refreshToken := cookies req !! "sb-refresh-token" in
  _ ← (if (JS.truthy accessToken && JS.truthy refreshToken)%bool
       then setSession (JS.or_else accessToken "") (JS.or_else refreshToken "")
       else mret tt);
  if (isAdminPath && negb isLoginPage)%bool then
    session ← getSession;
    match session with
    | None => redirect "/admin/login"
    | Some s =>
        _ ← set_locals_user (session_user s);
        _ ← set_locals_session s;
        next
    end
  else next.

(** The client after the cookie step of [onRequest]. *)
Definition hydrated (req : Request) (c : AuthClient) : AuthClient :=
  if (JS.truthy (cookies req !! "sb-access-token")
      && JS.truthy (cookies req !! "sb-refresh-token"))%bool
  then auth_setSession (JS.or_else (cookies req !! "sb-access-token") "")
                       (JS.or_else (cookies req !! "sb-refresh-token") "") c
  else c.

Definition is_set_session (e : Event) : bool :=
  match e with EvSetSession _ _ => true | _ => false end.
Definition is_next (e : Event) : bool :=
  match e with EvNext _ => true | _ => false end.

End Gate.

Arguments Locals : clear implicits.
Arguments Event : clear implicits.
Arguments Gate : clear implicits.

End Middleware.

(** * Booking wizard: the submit handler of the booking page *)

Module Wizard.
Import Backend.

(** The [hidden] class of the three elements the handler toggles, and
    the [alert]s raised. *)
Record Ui := {
  form_hidden : bool;
  loading_hidden : bool;
  success_hidden : bool;
  alerts : list string
}.

Record Page := { world : World; ui : Ui }.

Definition lift {A} (m : M World A) : M Page A := fun p =>
  let (r, w) := m (world p) in (r, {| world := w; ui := ui p |}).

Definition dom (f : Ui -> Ui) : M Page unit := fun p =>
  (Ok tt, {| world := world p; ui := f (ui p) |}).

Definition show_loading (u : Ui) : Ui :=
  {| form_hidden := form_hidden u; loading_hidden := false;
     success_hidden := success_hidden u; alerts := alerts u |}.
Definition hide_loading (u : Ui) : Ui :=
  {| form_hidden := form_hidden u; loading_hidden := true;
     success_hidden := success_hidden u; alerts := alerts u |}.
Definition show_success (u : Ui) : Ui :=
  {| form_hidden := true; loading_hidden := loading_hidden u;
     success_hidden := false; alerts := alerts u |}.
Definition alert (msg : string) (u : Ui) : Ui :=
  {| form_hidden := form_hidden u; loading_hidden := loading_hidden u;
     success_hidden := success_hidden u; alerts := alerts u ++ [msg] |}.

Definition bucket : string := "reference-photos".

(** [file.name.replace(/[^a-zA-Z0-9]/g, '')] *)
Definition strip (name : string) : string := JS.keep JS.alnum name.

(** The [for ... of Array.from(fileInput.files)] loop; [uploadedUrls]
    is the array being pushed to. *)
Fixpoint upload_each (files : list File) (uploadedUrls : list string)
  : M World (list string) :=
  match files with
  | [] => mret uploadedUrls
  | file :: rest =>
      now ← Date_now;
      let fileName := JS.show now ++ "-" ++ strip (file_name file) in
      r ← storage_upload bucket fileName file;
      match up_data r with
      | Some _ =>
          publicUrl ← getPublicUrl bucket fileName;
          upload_each rest (uploadedUrls ++ [publicUrl])
      | None => upload_each rest uploadedUrls
      end
  end.

(** [formData.get(name)] *)
Definition field (formData : gmap string string) (name : string) : Value :=
  match formData !! name with
  | Some s => VStr s
  | None => VNull
  end.

Definition booking_row (formData : gmap string string) (uploadedUrls : list string)
  : Row :=
  list_to_map
    [ ("first_name", field formData "first_name");
      ("last_name", field formData "last_name");
      ("email", field formData "email");
      ("phone", field formData "phone");
      ("tattoo_idea", field formData "idea");
      ("tattoo_placement", field formData "placement");
      ("tattoo_size", field formData "size");
      ("is_custom", VBool true);
      ("reference_photos", VList uploadedUrls);
      ("status", VStr "pending") ].

(** The [submit] listener. [files] is [fileInput.files], which may be
    null. *)
Definition submit (formData : gmap string string) (files : option (list File))
  : M Page unit :=
  _ ← dom show_loading;
  uploadedUrls ← lift (match files with
                       | Some fs => upload_each fs []
                       | None => mret []
                       end);
  r ← lift (exec (from "bookings" |> insert (booking_row formData uploadedUrls)));
  _ ← dom hide_loading;
  match error r with
  | None => dom show_success
  | Some e => dom (alert ("Error submitting booking: " ++ message e))
  end.

(** Observations on a run. *)

Definition is_insert (c : Call) : bool :=
  match c with
  | CallDb q => match q_verb q with VInsert _ => true | _ => false end
  | CallUpload _ _ => false
  end.

(** The outcomes met by the uploads of [n] files. *)
Fixpoint outcomes (n : nat) (faults : list StorageOutcome) : list StorageOutcome :=
  match n with
  | O => []
  | S k =>
      match faults with
      | [] => Stored :: outcomes k []
      | o :: rest => o :: outcomes k rest
      end
  end.

Definition crashed (o : StorageOutcome) : bool :=
  match o with Crashed _ => true | _ => false end.
Definition stored (o : StorageOutcome) : bool :=
  match o with Stored => true | _ => false end.

(** The public URL the handler records for a file uploaded at [now] to
    the project at [base]. *)
Definition url_of (base : string) (now : Z) (file : File) : string :=
  public_url base bucket (JS.show now ++ "-" ++ strip (file_name file)).

(** URLs of the files whose upload was stored, in selection order. *)
Fixpoint stored_urls (base : string) (now : Z) (files : list File)
    (outs : list StorageOutcome) : list string :=
  match files, outs with
  | file :: files', o :: outs' =>
      if stored o then url_of base now file :: stored_urls base now files' outs'
      else stored_urls base now files' outs'
  | _, _ => []
  end.

(** The calls a run added to the log. *)
Definition issued (before after : World) : list Call :=
  drop (length (calls before)) (calls after).

End Wizard.

(** * Realtime subscription adapter *)

Module Realtime.

Record Message := {
  msg_id : string;
  created_at : string;
  booking_id : string;
  sender_role : string;
  content : string
}.

Record Payload := { new : Message }.

Section Feed.

(** Whatever the caller's handlers act on. *)
Context {App : Type}.

Record Binding := {
  b_type : string;
  b_event : string;
  b_schema : string;
  b_table : string;
  b_filter : string;
  b_callback : Payload -> App -> App
}.

(** A channel object; [ch_ref] stands for its identity. *)
Record Channel := {
  ch_ref : nat;
  ch_topic : string;
  ch_bindings : list Binding;
  ch_joined : bool
}.

(** The realtime half of the client: its open channels, the next
    fresh identity, the caller's state, and every handler invocation
    so far (channel, row), oldest first. *)
Record Client := {
  channels : list Channel;
  next_ref : nat;
  app : App;
  delivered : list (nat * Message)
}.

Definition set_channels (cs : list Channel) (c : Client) : Client :=
  {| channels := cs; next_ref := next_ref c; app := app c;
     delivered := delivered c |}.

(** [supabase.channel(topic)] on a topic that has no open channel: a new
    channel object.  (A client that hands back the open channel of a
    topic differs on a topic that is open already; the delivery
    properties below take the topic to be free.) *)
Definition channel (topic : string) (c : Client) : nat * Client :=
  (next_ref c,
   {| channels := channels c ++
        [{| ch_ref := next_ref c; ch_topic := topic;
            ch_bindings := []; ch_joined := false |}];
      next_ref := S (next_ref c); app := app c; delivered := delivered c |}).

Definition on_channel (h : nat) (f : Channel -> Channel) (c : Client) : Client :=
  set_channels
    (map (fun ch => if Nat.eqb (ch_ref ch) h then f ch else ch) (channels c)) c.

(** [.on("postgres_changes", { event, schema, table, filter }, cb)] *)
Definition on (b : Binding) (h : nat) (c : Client) : Client :=
  on_channel h (fun ch =>
    {| ch_ref := ch_ref ch; ch_topic := ch_topic ch;
       ch_bindings := ch_bindings ch ++ [b]; ch_joined := ch_joined ch |}) c.

(** [.subscribe()] *)
Definition subscribe (h : nat) (c : Client) : Client :=
  on_channel h (fun ch =>
    {| ch_ref := ch_ref ch; ch_topic := ch_topic ch;
       ch_bindings := ch_bindings ch; ch_joined := true |}) c.

(** [supabase.removeChannel(channel)]: the channel leaves the client's
    list; the returned promise is not awaited by the caller. *)
Definition removeChannel (h : nat) (c : Client) : Client :=
  set_channels (List.filter (fun ch => negb (Nat.eqb (ch_ref ch) h)) (channels c)) c.

Definition subscribeToMessages (bookingId : string)
    (callback : Message -> App -> App) (c : Client)
  : (Client -> Client) * Client :=
  let (h, c) := channel ("messages:" ++ bookingId) c in
  let c :=
    on {| b_type := "postgres_changes"; b_event := "INSERT";
          b_schema := "public"; b_table := "messages";
          b_filter := "booking_id=eq." ++ bookingId;
          b_callback := fun payload => callback (new payload) |} h c in
  let c := subscribe h c in
  (fun c' => removeChannel h c', c).

(** The feed: a row inserted into [table] reaches every binding of a
    joined channel that listens for it. *)
Definition listens (table : string) (m : Message) (b : Binding) : bool :=
  ((b_type b =? "postgres_changes") && (b_event b =? "INSERT")
   && (b_schema b =? "public") && (b_table b =? table)
   && (b_filter b =? "booking_id=eq." ++ booking_id m))%bool.

Definition invoke (h : nat) (m : Message) (c : Client) (b : Binding) : Client :=
  {| channels := channels c; next_ref := next_ref c;
     app := b_callback b {| new := m |} (app c);
     delivered := delivered c ++ [(h, m)] |}.

Definition notify_channel (table : string) (m : Message) (c : Client) (ch : Channel)
  : Client :=
  if ch_joined ch
  then fold_left (invoke (ch_ref ch) m) (List.filter (listens table m) (ch_bindings ch)) c
  else c.

Definition notify (table : string) (m : Message) (c : Client) : Client :=
  fold_left (notify_channel table m) (channels c) c.

(** Anything that can happen to the client after a subscription. *)
Inductive Op :=
| OpSubscribe (bookingId : string) (callback : Message -> App -> App)
| OpRemove (h : nat)
| OpNotify (table : string) (m : Message).

Definition step (c : Client) (o : Op) : Client :=
  match o with
  | OpSubscribe b cb => (subscribeToMessages b cb c).2
  | OpRemove h => removeChannel h c
  | OpNotify t m => notify t m c
  end.

Definition run (ops : list Op) (c : Client) : Client := fold_left step ops c.

(** Handler invocations made on behalf of channel [h]. *)
Definition delivered_to (h : nat) (c : Client) : list (nat * Message) :=
  List.filter (fun d => Nat.eqb d.1 h) (delivered c).

End Feed.

Arguments Binding : clear implicits.
Arguments Channel : clear implicits.
Arguments Client : clear implicits.
Arguments Op : clear implicits.

End Realtime.

(** * Properties *)

(** ** Backend client binding *)

Section BindingFacts.
Import Binding.

Lemma or_else_nonempty a b : b <> "" -> JS.or_else a b <> "".
Proof.
  intros Hb. destruct a as [s|]; simpl; [|exact Hb].
  destruct (s =? "") eqn:E; [exact Hb|].
  intros ->. discriminate.
Qed.

Lemma truthy_some s : JS.truthy (Some s) = true <-> s <> "".
Proof.
  simpl. destruct (String.eqb_spec s ""); simpl; split; congruence.
Qed.

Variable url_error : string -> option string.

Lemma createClient_ok url key opts :
  url <> "" -> url_error url = None -> key <> "" ->
  createClient url_error url key opts =
    Ok {| client_url := url; client_key := key; client_auth := opts |}.
Proof.
  intros Hu Hv Hk. unfold createClient. rewrite Hv.
  destruct (String.eqb_spec url ""); [contradiction|].
  destruct (String.eqb_spec key ""); [contradiction|]. reflexivity.
Qed.

Lemma createClient_bad_url url key opts msg :
  url <> "" -> url_error url = Some msg ->
  createClient url_error url key opts = Throw {| code := ""; message := msg |}.
Proof.
  intros Hu Hv. unfold createClient. rewrite Hv.
  destruct (String.eqb_spec url ""); [contradiction|reflexivity].
Qed.

Lemma configured_spec env :
  configured env = true <-> supabaseUrl env <> "" /\ supabaseKey env <> "".
Proof.
  unfold configured. rewrite andb_true_iff, !truthy_some. tauto.
Qed.

(** The credential a configured client is bound to. *)
Definition chosen_key (env : Env) : string :=
  if SSR env
  then (if supabaseServiceKey env =? "" then supabaseAnonKey env
        else supabaseServiceKey env)
  else supabaseAnonKey env.

Lemma supabaseKey_chosen env : supabaseKey env = chosen_key env.
Proof. reflexivity. Qed.

Lemma chosen_key_set env :
  chosen_key env <> ""
  <-> if SSR env
      then supabaseServiceKey env <> "" \/ supabaseAnonKey env <> ""
      else supabaseAnonKey env <> "".
Proof.
  unfold chosen_key. destruct (SSR env); [|reflexivity].
  destruct (String.eqb_spec (supabaseServiceKey env) "") as [E|E].
  - rewrite E. split; [intros H; right; exact H|intros [H|H]; [congruence|exact H]].
  - split; [intros _; left; exact E|intros _; exact E].
Qed.

(** The placeholder client. *)
Definition placeholder : Client :=
  {| client_url := placeholder_url; client_key := placeholder_key;
     client_auth := None |}.

(** The reading of the session-options rule that takes it for every
    client the module can build: an option in force means a browser. *)
Definition session_options_browser_only : Prop :=
  forall env c,
    supabase url_error env = Ok c ->
    persistSession (session_options c) = true
    \/ autoRefreshToken (session_options c) = true
    \/ detectSessionInUrl (session_options c) = true ->
    SSR env = false.

(** C8, amended: the library taking the placeholder URL, the module is
    configured exactly when the URL is set together with the credential
    of the context (on the server the service-role key or the anon key,
    in the browser the anon key).  When it is not, building the client
    does not fail and gives the placeholder client, built without
    options.  When it is, and the library takes the URL, the client is
    bound to that URL, on the server to the service-role key when there
    is one and to the anon key when not, in the browser to the anon key,
    with the three session options on in the browser and off on the
    server; when the library does not take the URL, the module fails to
    load with the library's error. *)
Theorem supabase_binding (env : Env) :
  url_error placeholder_url = None ->
  (configured env = true
   <-> supabaseUrl env <> ""
       /\ if SSR env
          then supabaseServiceKey env <> "" \/ supabaseAnonKey env <> ""
          else supabaseAnonKey env <> "")
  /\ (configured env = false -> supabase url_error env = Ok placeholder)
  /\ (configured env = true -> url_error (supabaseUrl env) = None ->
      supabase url_error env
      = Ok {| client_url := supabaseUrl env;
              client_key :=
                if SSR env
                then (if supabaseServiceKey env =? "" then supabaseAnonKey env
                      else supabaseServiceKey env)
                else supabaseAnonKey env;
              client_auth :=
                Some {| persistSession := negb (SSR env);
                        autoRefreshToken := negb (SSR env);
                        detectSessionInUrl := negb (SSR env) |} |})
  /\ (configured env = true -> forall msg,
      url_error (supabaseUrl env) = Some msg ->
      supabase url_error env = Throw {| code := ""; message := msg |}).
Proof.
  intros Hp.
  assert (Hc : configured env = true
               <-> supabaseUrl env <> ""
                   /\ if SSR env
                      then supabaseServiceKey env <> "" \/ supabaseAnonKey env <> ""
                      else supabaseAnonKey env <> "").
  { rewrite configured_spec, supabaseKey_chosen, chosen_key_set. reflexivity. }
  split; [exact Hc|]. unfold supabase. split; [|split].
  - intros ->. apply createClient_ok; [discriminate|exact Hp|discriminate].
  - intros Hcfg Hv. rewrite Hcfg.
    apply configured_spec in Hcfg as [Hu Hk].
    rewrite (createClient_ok _ _ _ Hu Hv Hk). reflexivity.
  - intros Hcfg msg Hv. rewrite Hcfg.
    apply configured_spec in Hcfg as [Hu _].
    apply createClient_bad_url; assumption.
Qed.

End BindingFacts.

(** A library check for the runs: [http://] and [https://] URLs pass. *)
Section BindingRuns.
Import Binding.

Definition http_only (url : string) : option string :=
  if (String.prefix "http://" url || String.prefix "https://" url)%bool
  then None
  else Some "Invalid supabaseUrl: Must be a valid HTTP or HTTPS URL.".

Definition env_server_unset : Env :=
  {| PUBLIC_SUPABASE_URL := None; PUBLIC_SUPABASE_ANON_KEY := None;
     SUPABASE_SERVICE_ROLE_KEY := None; SSR := true |}.

Definition env_server_both : Env :=
  {| PUBLIC_SUPABASE_URL := Some "https://kow.supabase.co";
     PUBLIC_SUPABASE_ANON_KEY := Some "anon";
     SUPABASE_SERVICE_ROLE_KEY := Some "service"; SSR := true |}.

Definition env_server_service_only : Env :=
  {| PUBLIC_SUPABASE_URL := Some "https://kow.supabase.co";
     PUBLIC_SUPABASE_ANON_KEY := None;
     SUPABASE_SERVICE_ROLE_KEY := Some "service"; SSR := true |}.

Definition env_browser_both : Env :=
  {| PUBLIC_SUPABASE_URL := Some "https://kow.supabase.co";
     PUBLIC_SUPABASE_ANON_KEY := Some "anon";
     SUPABASE_SERVICE_ROLE_KEY := Some "service"; SSR := false |}.

Definition env_bad_url : Env :=
  {| PUBLIC_SUPABASE_URL := Some "kow.supabase.co";
     PUBLIC_SUPABASE_ANON_KEY := Some "anon";
     SUPABASE_SERVICE_ROLE_KEY := None; SSR := true |}.

Lemma supabase_binding_witness :
  supabase http_only env_server_unset = Ok placeholder
  /\ supabase http_only env_server_both
     = Ok {| client_url := "https://kow.supabase.co"; client_key := "service";
             client_auth := Some {| persistSession := false; autoRefreshToken := false;
                                    detectSessionInUrl := false |} |}
  /\ supabase http_only env_server_service_only
     = Ok {| client_url := "https://kow.supabase.co"; client_key := "service";
             client_auth := Some {| persistSession := false; autoRefreshToken := false;
                                    detectSessionInUrl := false |} |}
  /\ supabase http_only env_browser_both
     = Ok {| client_url := "https://kow.supabase.co"; client_key := "anon";
             client_auth := Some {| persistSession := true; autoRefreshToken := true;
                                    detectSessionInUrl := true |} |}
  /\ supabase http_only env_bad_url
     = Throw {| code := "";
                message := "Invalid supabaseUrl: Must be a valid HTTP or HTTPS URL." |}.
Proof.
  split; [|split; [|split; [|split]]].
  - destruct (supabase_binding http_only env_server_unset eq_refl) as (_ & H & _).
    apply H. reflexivity.
  - destruct (supabase_binding http_only env_server_both eq_refl) as (_ & _ & H & _).
    apply (H eq_refl eq_refl).
  - destruct (supabase_binding http_only env_server_service_only eq_refl)
      as (_ & _ & H & _).
    apply (H eq_refl eq_refl).
  - destruct (supabase_binding http_only env_browser_both eq_refl) as (_ & _ & H & _).
    apply (H eq_refl eq_refl).
  - destruct (supabase_binding http_only env_bad_url eq_refl) as (_ & _ & _ & H).
    apply (H eq_refl _ eq_refl).
Defined.

(** C8 as stated fails on a server without configuration: the
    placeholder client is built without options, so the library's
    defaults are in force and the three session options are on. *)
Lemma placeholder_on_server_runs_on_defaults :
  supabase http_only env_server_unset = Ok placeholder
  /\ SSR env_server_unset = true
  /\ session_options placeholder
     = {| persistSession := true; autoRefreshToken := true;
          detectSessionInUrl := true |}
  /\ ~ session_options_browser_only http_only.
Proof.
  split; [reflexivity|]. split; [reflexivity|]. split; [reflexivity|].
  intros H.
  specialize (H env_server_unset placeholder eq_refl (or_introl eq_refl)).
  discriminate H.
Qed.

End BindingRuns.


(** ** Row store *)

Section BackendFacts.
Import Backend.

(** The error the next row-store round trip is answered with, if the
    environment has one in store. *)
Definition db_fault (w : World) : option BackendError :=
  match db_faults w with
  | Some e :: _ => Some e
  | _ => None
  end.

(** The world once the round trip for [q] is on the log and its slot of
    the schedule is used up. *)
Definition sent (q : Query) (w : World) : World :=
  set_db_faults (tail (db_faults w)) (log (CallDb q) w).

(** Rows of a table whose column [c] holds [v]. *)
Definition rows_where (c : string) (v : Value) (t : list Row) : list Row :=
  List.filter (matches [(c, v)]) t.

(** No row of the table holds [v] in column [c]. *)
Definition no_row (c : string) (v : Value) (t : list Row) : Prop :=
  Forall (fun r : Row => r !! c <> Some v) t.

(** The row an insert of [row] into table [t] stores and sends back:
    the payload, and the columns the schema fills in where the payload
    has none. *)
Definition stored_row (t : string) (row : Row) (w : World) : Row :=
  row ∪ generated w t (table_rows t w).

Lemma stored_row_payload t (row : Row) w k v :
  row !! k = Some v -> stored_row t row w !! k = Some v.
Proof. intros H. unfold stored_row. apply lookup_union_Some_l, H. Qed.

Lemma stored_row_filled t (row : Row) w k :
  row !! k = None -> stored_row t row w !! k = generated w t (table_rows t w) !! k.
Proof. intros H. unfold stored_row. apply lookup_union_r, H. Qed.

Lemma matches_one c v (r : Row) : matches [(c, v)] r = true <-> r !! c = Some v.
Proof.
  unfold matches. simpl. rewrite andb_true_r. apply bool_decide_eq_true.
Qed.

Lemma no_row_filter c v t : no_row c v t <-> rows_where c v t = [].
Proof.
  unfold no_row, rows_where. induction t as [|r t IH]; cbn [List.filter].
  - split; [reflexivity|constructor].
  - destruct (matches [(c, v)] r) eqn:E.
    + split; [|discriminate]. intros H. inversion H as [|? ? Hr _]; subst.
      apply matches_one in E. contradiction.
    + rewrite <- IH. split.
      * intros H. inversion H; assumption.
      * intros H. constructor; [|assumption].
        intros Hr. apply matches_one in Hr. congruence.
Qed.

Lemma exec_faulty q w e :
  db_fault w = Some e ->
  exec q w = (Ok {| data := DNull; error := Some e |}, sent q w).
Proof.
  unfold db_fault, exec, sent. simpl.
  destruct (db_faults w) as [|[e'|] rest]; try discriminate.
  intros [= ->]. reflexivity.
Qed.

Lemma exec_quiet q w :
  db_fault w = None ->
  exec q w =
    (let t := table_rows (q_table q) w in
     let '(t', rows) := apply_verb (generated w (q_table q) t) q t in
     let r := answer q (map (project (q_columns q)) rows) in
     (Ok r, match error r with
            | Some _ => sent q w
            | None => commit q t' (sent q w)
            end)).
Proof.
  unfold db_fault, exec, sent. simpl.
  destruct (db_faults w) as [|[e'|] rest]; try discriminate; intros _; simpl;
    unfold table_rows; simpl;
    destruct (apply_verb _ q (default [] (tables w !! q_table q))) as [t' rows];
    destruct (error (answer q (map (project (q_columns q)) rows))); reflexivity.
Qed.

Lemma sent_tables q w : tables (sent q w) = tables w.
Proof. reflexivity. Qed.

(** A lookup of one row through [.select(cols).eq(c, v).single()]. *)
Lemma exec_lookup t cols c v w :
  db_fault w = None ->
  exec (from t |> select cols |> eq c v |> single) w =
    (Ok (match rows_where c v (table_rows t w) with
         | [r] => {| data := DRow (project cols r); error := None |}
         | _ => {| data := DNull; error := Some pgrst116 |}
         end), sent (from t |> select cols |> eq c v |> single) w).
Proof.
  intros Hq. rewrite (exec_quiet _ _ Hq). simpl.
  unfold apply_verb, answer, rows_where, from. simpl.
  destruct (List.filter (matches [(c, v)]) (table_rows t w)) as [|r [|r' l]];
    reflexivity.
Qed.

(** An update of the rows with [c = v] that asks for the single row back,
    when no row matches: [PGRST116], and nothing is written. *)
Lemma exec_update_absent t p c v w :
  db_fault w = None ->
  no_row c v (table_rows t w) ->
  exec (from t |> update p |> eq c v |> returning |> single) w =
    (Ok {| data := DNull; error := Some pgrst116 |},
     sent (from t |> update p |> eq c v |> returning |> single) w).
Proof.
  intros Hq Hn. rewrite (exec_quiet _ _ Hq). simpl.
  unfold apply_verb, answer, from. simpl.
  apply no_row_filter in Hn. unfold rows_where in Hn. rewrite Hn. reflexivity.
Qed.

Lemma filter_none_id {A} (f : A -> bool) (l : list A) :
  List.filter f l = [] -> List.filter (fun x => negb (f x)) l = l.
Proof.
  induction l as [|x l IH]; simpl; [reflexivity|].
  destruct (f x); [discriminate|]. simpl. intros H. f_equal. auto.
Qed.

End BackendFacts.

(** ** Data-access facade *)

Section FacadeFacts.
Import Backend Facade.

Ltac run_facade f := unfold f, mbind, M_bind, mret, M_ret, throw.

(** C4: with no booking row for the id, [getBookingById] throws, the
    [.single()] error when the round trip itself goes through; with no
    booking row for the token, [getBookingByToken] resolves with null.
    [getBookingByToken] throws exactly the backend errors whose code is
    not [PGRST116]. *)
Theorem booking_lookup_asymmetry :
  (forall id w,
      no_row "id" (VStr id) (table_rows "bookings" w) ->
      exists e w', getBookingById id w = (Throw e, w')
                   /\ tables w' = tables w
                   /\ (db_fault w = None -> e = pgrst116))
  /\ (forall token w,
      db_fault w = None ->
      no_row "client_access_token" (VStr token) (table_rows "bookings" w) ->
      exists w', getBookingByToken token w = (Ok DNull, w')
                 /\ tables w' = tables w)
  /\ (forall token w e w',
      getBookingByToken token w = (Throw e, w') ->
      db_fault w = Some e /\ code e <> "PGRST116")
  /\ (forall token w e,
      db_fault w = Some e -> code e <> "PGRST116" ->
      exists w', getBookingByToken token w = (Throw e, w')).
Proof.
  repeat split.
  - intros id w Hn. run_facade getBookingById.
    destruct (db_fault w) as [e0|] eqn:Hq.
    + rewrite (exec_faulty _ _ _ Hq). simpl. exists e0. eexists.
      repeat split. discriminate.
    + rewrite (exec_lookup _ _ _ _ _ Hq).
      apply no_row_filter in Hn. rewrite Hn. simpl. do 2 eexists.
      repeat split.
  - intros token w Hq Hn. run_facade getBookingByToken.
    rewrite (exec_lookup _ _ _ _ _ Hq).
    apply no_row_filter in Hn. rewrite Hn. simpl. eexists. split; reflexivity.
  - revert H. run_facade getBookingByToken.
    destruct (db_fault w) as [e0|] eqn:Hf.
    + rewrite (exec_faulty _ _ _ Hf). simpl.
      destruct (code e0 =? "PGRST116"); [discriminate|]. congruence.
    + rewrite (exec_lookup _ _ _ _ _ Hf).
      destruct (rows_where _ _ _) as [|r [|r' l]]; simpl; discriminate.
  - revert H. run_facade getBookingByToken.
    destruct (db_fault w) as [e0|] eqn:Hf.
    + rewrite (exec_faulty _ _ _ Hf). simpl.
      destruct (String.eqb_spec (code e0) "PGRST116"); [discriminate|].
      intros [= <- _]. assumption.
    + rewrite (exec_lookup _ _ _ _ _ Hf).
      destruct (rows_where _ _ _) as [|r [|r' l]]; simpl; discriminate.
  - intros token w e Hf Hc. run_facade getBookingByToken.
    rewrite (exec_faulty _ _ _ Hf). simpl.
    destruct (String.eqb_spec (code e) "PGRST116"); [contradiction|].
    eexists. reflexivity.
Qed.

(** A bookings table with one row, and a world around it. *)
Definition booking_1 : Row :=
  list_to_map [ ("id", VStr "b1"); ("client_access_token", VStr "tok-1");
                ("status", VStr "pending"); ("admin_notes", VStr "call back") ].

Definition world_of (bookings settings images : list Row)
    (faults : list (option BackendError)) : World :=
  {| tables := list_to_map [ ("bookings", bookings); ("site_settings", settings);
                             ("content_images", images) ];
     db_faults := faults; objects := []; storage_faults := [];
     clock := 1700000000000; endpoint := "https://kow.supabase.co"; calls := [];
     generated := fun _ _ => ∅ |}.

Definition timeout_error : BackendError :=
  {| code := "57014"; message := "canceling statement due to statement timeout" |}.

Lemma booking_lookup_asymmetry_witness :
  (getBookingById "b2" (world_of [booking_1] [] [] [])).1 = Throw pgrst116
  /\ (getBookingByToken "tok-2" (world_of [booking_1] [] [] [])).1 = Ok DNull
  /\ (getBookingByToken "tok-1" (world_of [booking_1] [] [] [Some timeout_error])).1
     = Throw timeout_error.
Proof.
  destruct booking_lookup_asymmetry as (Hid & Htok & _ & Herr).
  split; [|split].
  - destruct (Hid "b2" (world_of [booking_1] [] [] [])) as (e & w' & -> & _ & He).
    + repeat constructor. vm_compute. discriminate.
    + rewrite (He eq_refl). reflexivity.
  - destruct (Htok "tok-2" (world_of [booking_1] [] [] [])) as (w' & -> & _);
      [reflexivity| |reflexivity].
    repeat constructor. vm_compute. discriminate.
  - destruct (Herr "tok-1" (world_of [booking_1] [] [] [Some timeout_error])
                timeout_error) as (w' & ->); [reflexivity|discriminate|reflexivity].
Defined.

Lemma value_or_null_project (row : Row) :
  value_or_null (DRow (project (Column "value") row)) = default VNull (row !! "value").
Proof.
  unfold value_or_null, project.
  destruct (row !! "value") as [v|]; simpl.
  - rewrite lookup_singleton_eq. reflexivity.
  - rewrite lookup_empty. reflexivity.
Qed.

(** C5: [getSiteSetting] resolves with null when no row has the key,
    resolves with the stored value when the row with the key is there,
    and throws every backend error whose code is not [PGRST116] (and
    nothing else). *)
Theorem site_setting_lookup :
  (forall key w,
      db_fault w = None ->
      no_row "key" (VStr key) (table_rows "site_settings" w) ->
      exists w', getSiteSetting key w = (Ok VNull, w') /\ tables w' = tables w)
  /\ (forall key w row v,
      db_fault w = None ->
      rows_where "key" (VStr key) (table_rows "site_settings" w) = [row] ->
      row !! "value" = Some v ->
      exists w', getSiteSetting key w = (Ok v, w') /\ tables w' = tables w)
  /\ (forall key w e,
      db_fault w = Some e -> code e <> "PGRST116" ->
      exists w', getSiteSetting key w = (Throw e, w') /\ tables w' = tables w)
  /\ (forall key w e w',
      getSiteSetting key w = (Throw e, w') ->
      db_fault w = Some e /\ code e <> "PGRST116").
Proof.
  split; [|split; [|split]].
  - intros key w Hq Hn. run_facade getSiteSetting.
    rewrite (exec_lookup _ _ _ _ _ Hq).
    apply no_row_filter in Hn. rewrite Hn. simpl. eexists. split; reflexivity.
  - intros key w row v Hq Hr Hv. run_facade getSiteSetting.
    rewrite (exec_lookup _ _ _ _ _ Hq), Hr.
    cbn [error data]. rewrite value_or_null_project, Hv.
    eexists. split; reflexivity.
  - intros key w e Hf Hc. run_facade getSiteSetting.
    rewrite (exec_faulty _ _ _ Hf). simpl.
    destruct (String.eqb_spec (code e) "PGRST116"); [contradiction|].
    eexists. split; reflexivity.
  - intros key w e w'. run_facade getSiteSetting.
    destruct (db_fault w) as [e0|] eqn:Hf.
    + rewrite (exec_faulty _ _ _ Hf). simpl.
      destruct (String.eqb_spec (code e0) "PGRST116"); [discriminate|].
      intros [= <- _]. split; [reflexivity|assumption].
    + rewrite (exec_lookup _ _ _ _ _ Hf).
      destruct (rows_where _ _ _) as [|r [|r' l]]; simpl; discriminate.
Qed.

Definition setting_contact : Row :=
  list_to_map [ ("id", VStr "s1"); ("key", VStr "contact_info");
                ("value", VStr "studio@kow.example") ].

Lemma site_setting_lookup_witness :
  (getSiteSetting "policy_text" (world_of [] [setting_contact] [] [])).1 = Ok VNull
  /\ (getSiteSetting "contact_info" (world_of [] [setting_contact] [] [])).1
     = Ok (VStr "studio@kow.example")
  /\ (getSiteSetting "contact_info"
        (world_of [] [setting_contact] [] [Some timeout_error])).1
     = Throw timeout_error.
Proof.
  destruct site_setting_lookup as (Hnone & Hsome & Herr & _).
  split; [|split].
  - destruct (Hnone "policy_text" (world_of [] [setting_contact] [] []))
      as (w' & -> & _); [reflexivity| |reflexivity].
    repeat constructor. vm_compute. discriminate.
  - destruct (Hsome "contact_info" (world_of [] [setting_contact] [] [])
                setting_contact (VStr "studio@kow.example"))
      as (w' & -> & _); reflexivity.
  - destruct (Herr "contact_info"
                (world_of [] [setting_contact] [] [Some timeout_error]) timeout_error)
      as (w' & -> & _); [reflexivity|discriminate|reflexivity].
Defined.

Lemma delete_absent_rows t id w :
  db_fault w = None ->
  no_row "id" (VStr id) (table_rows t w) ->
  exec (from t |> delete_ |> eq "id" (VStr id)) w =
    (Ok {| data := DNull; error := None |},
     set_tables (<[t := table_rows t w]> (tables w))
       (sent (from t |> delete_ |> eq "id" (VStr id)) w)).
Proof.
  intros Hq Hn. rewrite (exec_quiet _ _ Hq).
  unfold apply_verb, answer, commit, from, delete_, eq, start.
  cbn [q_verb q_filters q_table q_single q_returning q_columns app].
  apply no_row_filter in Hn. unfold rows_where in Hn.
  rewrite (filter_none_id _ _ Hn). reflexivity.
Qed.

Lemma table_rows_restored t u w w0 :
  table_rows u (set_tables (<[t := table_rows t w]> (tables w)) w0) = table_rows u w.
Proof.
  unfold table_rows. simpl. destruct (decide (t = u)) as [->|Hne].
  - rewrite lookup_insert_eq. reflexivity.
  - rewrite lookup_insert_ne by assumption. reflexivity.
Qed.

(** The answer to a partial update that wants its single row back, when
    no row has the id: an error, whether the round trip fails or not. *)
Lemma update_absent_answer t p id w :
  no_row "id" (VStr id) (table_rows t w) ->
  exists e,
    exec (from t |> update p |> eq "id" (VStr id) |> returning |> single) w
    = (Ok {| data := DNull; error := Some e |},
       sent (from t |> update p |> eq "id" (VStr id) |> returning |> single) w)
    /\ (db_fault w = None -> e = pgrst116).
Proof.
  intros Hn. destruct (db_fault w) as [e0|] eqn:Hq.
  - exists e0. rewrite (exec_faulty _ _ _ Hq). split; [reflexivity|discriminate].
  - exists pgrst116. rewrite (exec_update_absent _ _ _ _ _ Hq Hn).
    split; reflexivity.
Qed.

(** C10: on an id that matches no row the three partial updates throw
    and write nothing; when the round trip itself goes through, what they
    throw is the [.single()] error for the empty result.
    [deleteContentImage] on such an id resolves and leaves every table as
    it was. *)
Theorem update_absent_throws_delete_absent_ok :
  (forall id updates w,
      no_row "id" (VStr id) (table_rows "content_images" w) ->
      exists e w', updateContentImage id updates w = (Throw e, w')
                   /\ tables w' = tables w
                   /\ (db_fault w = None -> e = pgrst116))
  /\ (forall id updates w,
      no_row "id" (VStr id) (table_rows "bookings" w) ->
      exists e w', updateBooking id updates w = (Throw e, w')
                   /\ tables w' = tables w
                   /\ (db_fault w = None -> e = pgrst116))
  /\ (forall id status adminNotes w,
      no_row "id" (VStr id) (table_rows "bookings" w) ->
      exists e w', updateBookingStatus id status adminNotes w = (Throw e, w')
                   /\ tables w' = tables w
                   /\ (db_fault w = None -> e = pgrst116))
  /\ (forall id w,
      db_fault w = None ->
      no_row "id" (VStr id) (table_rows "content_images" w) ->
      exists w', deleteContentImage id w = (Ok tt, w')
                 /\ forall t, table_rows t w' = table_rows t w).
Proof.
  split; [|split; [|split]].
  - intros id updates w Hn. run_facade updateContentImage.
    destruct (update_absent_answer "content_images" updates id w Hn)
      as (e & -> & He).
    simpl. exists e. eexists. repeat split. exact He.
  - intros id updates w Hn. run_facade updateBooking.
    destruct (update_absent_answer "bookings" updates id w Hn) as (e & -> & He).
    simpl. exists e. eexists. repeat split. exact He.
  - intros id status adminNotes w Hn. run_facade updateBookingStatus.
    destruct (update_absent_answer "bookings" (status_updates status adminNotes)
                id w Hn) as (e & -> & He).
    simpl. exists e. eexists. repeat split. exact He.
  - intros id w Hq Hn. run_facade deleteContentImage.
    rewrite (delete_absent_rows _ _ _ Hq Hn). simpl.
    eexists. split; [reflexivity|]. intros t. apply table_rows_restored.
Qed.

Definition image_1 : Row :=
  list_to_map [ ("id", VStr "i1"); ("title", VStr "rose"); ("category", VStr "flash") ].

Lemma update_absent_throws_delete_absent_ok_witness :
  (updateContentImage "i2" {[ "title" := VStr "koi" ]}
     (world_of [booking_1] [] [image_1] [])).1 = Throw pgrst116
  /\ (updateBooking "b2" {[ "phone" := VStr "555" ]}
        (world_of [booking_1] [] [image_1] [])).1 = Throw pgrst116
  /\ (updateBookingStatus "b2" accepted None
        (world_of [booking_1] [] [image_1] [])).1 = Throw pgrst116
  /\ (deleteContentImage "i2" (world_of [booking_1] [] [image_1] [])).1 = Ok tt.
Proof.
  destruct update_absent_throws_delete_absent_ok as (Hi & Hb & Hs & Hd).
  assert (Hni : no_row "id" (VStr "i2")
                  (table_rows "content_images" (world_of [booking_1] [] [image_1] []))).
  { repeat constructor. vm_compute. discriminate. }
  assert (Hnb : no_row "id" (VStr "b2")
                  (table_rows "bookings" (world_of [booking_1] [] [image_1] []))).
  { repeat constructor. vm_compute. discriminate. }
  split; [|split; [|split]].
  - destruct (Hi "i2" {[ "title" := VStr "koi" ]}
                (world_of [booking_1] [] [image_1] []) Hni) as (e & w' & -> & _ & He).
    rewrite (He eq_refl). reflexivity.
  - destruct (Hb "b2" {[ "phone" := VStr "555" ]}
                (world_of [booking_1] [] [image_1] []) Hnb) as (e & w' & -> & _ & He).
    rewrite (He eq_refl). reflexivity.
  - destruct (Hs "b2" accepted None
                (world_of [booking_1] [] [image_1] []) Hnb) as (e & w' & -> & _ & He).
    rewrite (He eq_refl). reflexivity.
  - destruct (Hd "i2" (world_of [booking_1] [] [image_1] []) eq_refl Hni)
      as (w' & -> & _).
    reflexivity.
Defined.

(** Rows picked by a filter are still picked after a patch that leaves
    the filtered columns alone. *)
Lemma filter_patched (p : Row) fs (t : list Row) :
  (forall r : Row, matches fs (p ∪ r) = matches fs r) ->
  List.filter (matches fs) (map (fun r => if matches fs r then p ∪ r else r) t)
  = map (fun r => p ∪ r) (List.filter (matches fs) t).
Proof.
  intros Hp. induction t as [|r t IH]; [reflexivity|].
  cbn [map List.filter].
  destruct (matches fs r) eqn:E.
  - rewrite Hp, E. cbn [map]. f_equal. exact IH.
  - rewrite E. exact IH.
Qed.

Lemma exec_update_one t p c v w row :
  db_fault w = None ->
  rows_where c v (table_rows t w) = [row] ->
  exec (from t |> update p |> eq c v |> returning |> single) w =
    (Ok {| data := DRow (p ∪ row); error := None |},
     set_tables
       (<[t := map (fun r => if matches [(c, v)] r then p ∪ r else r) (table_rows t w)]>
          (tables w))
       (sent (from t |> update p |> eq c v |> returning |> single) w)).
Proof.
  intros Hq Hr. rewrite (exec_quiet _ _ Hq).
  unfold apply_verb, answer, commit, from, update, returning, single, eq, start.
  cbn [q_verb q_filters q_table q_single q_returning q_columns app].
  unfold rows_where in Hr. rewrite Hr. reflexivity.
Qed.

(** Every round trip goes on the log, whatever its outcome. *)
Lemma exec_calls q w : calls (exec q w).2 = (calls w ++ [CallDb q])%list.
Proof.
  destruct (db_fault w) as [e|] eqn:Hf.
  - rewrite (exec_faulty _ _ _ Hf). reflexivity.
  - rewrite (exec_quiet _ _ Hf). cbn zeta.
    destruct (apply_verb _ q _) as [t' rows].
    destruct (error _); [reflexivity|].
    unfold commit. destruct (q_verb q); reflexivity.
Qed.

Lemma status_updates_fields status adminNotes :
  (is_Some (status_updates status adminNotes !! "admin_notes") <-> is_Some adminNotes)
  /\ (forall notes, adminNotes = Some notes ->
        status_updates status adminNotes !! "admin_notes" = Some (VStr notes))
  /\ status_updates status adminNotes !! "status" = Some (VStr (status_text status))
  /\ (forall k, k <> "status" -> k <> "admin_notes" ->
        status_updates status adminNotes !! k = None).
Proof.
  destruct adminNotes as [notes|]; unfold status_updates; cbn zeta.
  - split; [rewrite lookup_insert_eq; split; eauto|].
    split; [intros n [= <-]; apply lookup_insert_eq|].
    split; [rewrite lookup_insert_ne by discriminate; apply lookup_singleton_eq|].
    intros k Hs Hn. rewrite lookup_insert_ne by congruence.
    apply lookup_singleton_ne. congruence.
  - split.
    { rewrite lookup_singleton_ne by discriminate.
      split; intros [x Hx]; discriminate. }
    split; [intros n Hn; discriminate Hn|].
    split; [apply lookup_singleton_eq|].
    intros k Hs Hn. apply lookup_singleton_ne. congruence.
Qed.

(** C7: [updateBookingStatus] issues one update of the booking with the
    id, and the patch of that update carries [admin_notes] exactly when
    [adminNotes] is supplied (then with the supplied text), always
    carries [status], and carries no other field.  When the id is that
    of one row, the row comes back, and is stored, with its status
    replaced, with the supplied notes when notes are supplied and with
    the notes it had when they are omitted, and with every other field
    as before. *)
Theorem status_patch_frame :
  (forall id status adminNotes w,
      exists patch : Row,
        calls (updateBookingStatus id status adminNotes w).2
        = (calls w ++ [CallDb (from "bookings" |> update patch |> eq "id" (VStr id)
                               |> returning |> single)])%list
        /\ (is_Some (patch !! "admin_notes") <-> is_Some adminNotes)
        /\ (forall notes, adminNotes = Some notes ->
              patch !! "admin_notes" = Some (VStr notes))
        /\ patch !! "status" = Some (VStr (status_text status))
        /\ (forall k, k <> "status" -> k <> "admin_notes" -> patch !! k = None))
  /\ (forall id status adminNotes w (row : Row),
      db_fault w = None ->
      rows_where "id" (VStr id) (table_rows "bookings" w) = [row] ->
      exists w' (row' : Row),
        updateBookingStatus id status adminNotes w = (Ok (DRow row'), w')
        /\ rows_where "id" (VStr id) (table_rows "bookings" w') = [row']
        /\ row' !! "status" = Some (VStr (status_text status))
        /\ row' !! "admin_notes"
           = match adminNotes with
             | Some notes => Some (VStr notes)
             | None => row !! "admin_notes"
             end
        /\ forall k, k <> "status" -> k <> "admin_notes" -> row' !! k = row !! k).
Proof.
  split.
  - intros id status adminNotes w.
    exists (status_updates status adminNotes).
    split; [|apply status_updates_fields].
    run_facade updateBookingStatus. cbn zeta.
    pose proof (exec_calls (from "bookings" |> update (status_updates status adminNotes)
                            |> eq "id" (VStr id) |> returning |> single) w) as Hlog.
    destruct (exec _ w) as [[r|e] w1]; [|exact Hlog].
    destruct (error r); exact Hlog.
  - intros id status adminNotes w row Hq Hr.
    destruct (status_updates_fields status adminNotes) as (Hiff & Hn & Hs & Hk).
    run_facade updateBookingStatus. cbn zeta.
    rewrite (exec_update_one _ _ _ _ _ _ Hq Hr). cbn [error data].
    eexists. exists (status_updates status adminNotes ∪ row).
    split; [reflexivity|]. split; [|split; [|split]].
    + unfold table_rows at 1, set_tables, from. cbn [tables].
      rewrite lookup_insert_eq. cbn [default from_option Datatypes.id].
      unfold rows_where. rewrite filter_patched.
      * unfold rows_where in Hr. rewrite Hr. reflexivity.
      * intros r. unfold matches. cbn [forallb fst snd].
        rewrite lookup_union_r by (apply Hk; discriminate). reflexivity.
    + apply lookup_union_Some_l, Hs.
    + destruct adminNotes as [notes|].
      * apply lookup_union_Some_l, Hn. reflexivity.
      * apply lookup_union_r. apply eq_None_not_Some. intros H.
        apply Hiff in H. destruct H as [x Hx]. discriminate Hx.
    + intros k H1 H2. apply lookup_union_r, Hk; assumption.
Qed.

Lemma status_patch_frame_witness :
  (exists w' row',
    updateBookingStatus "b1" accepted None (world_of [booking_1] [] [] [])
      = (Ok (DRow row'), w')
    /\ row' !! "status" = Some (VStr "accepted")
    /\ row' !! "admin_notes" = Some (VStr "call back")
    /\ row' !! "client_access_token" = Some (VStr "tok-1"))
  /\ (exists w' row',
    updateBookingStatus "b1" denied (Some "no slot") (world_of [booking_1] [] [] [])
      = (Ok (DRow row'), w')
    /\ row' !! "status" = Some (VStr "denied")
    /\ row' !! "admin_notes" = Some (VStr "no slot")).
Proof.
  destruct status_patch_frame as (_ & Hrow).
  split.
  - destruct (Hrow "b1" accepted None (world_of [booking_1] [] [] []) booking_1
                eq_refl eq_refl) as (w' & row' & Hrun & _ & Hs & Hn & Hk).
    exists w', row'. split; [exact Hrun|]. split; [exact Hs|].
    split; [rewrite Hn; reflexivity|].
    rewrite Hk by discriminate. reflexivity.
  - destruct (Hrow "b1" denied (Some "no slot") (world_of [booking_1] [] [] [])
                booking_1 eq_refl eq_refl) as (w' & row' & Hrun & _ & Hs & Hn & _).
    exists w', row'. split; [exact Hrun|]. split; [exact Hs|exact Hn].
Defined.

End FacadeFacts.

(** ** Storage paths *)

Section StorageFacts.
Import Backend Facade.

(** What the environment does with the next upload. *)
Definition storage_fault (w : World) : StorageOutcome :=
  match storage_faults w with
  | o :: _ => o
  | [] => Stored
  end.

(** The default object key of [uploadImage] for a file uploaded at [now]. *)
Definition default_path (now : Z) (file : File) : string :=
  JS.show now ++ "-" ++ sanitize (file_name file).

Lemma keep_only cls s c : JS.occurs c (JS.keep cls s) = true -> cls c = true.
Proof.
  induction s as [|d s IH]; simpl; [discriminate|].
  destruct (cls d) eqn:E; [|exact IH].
  simpl. destruct (Ascii.eqb_spec c d) as [->|_]; [intros _; exact E|exact IH].
Qed.

Lemma keep_all cls s :
  (forall c, JS.occurs c s = true -> cls c = true) -> JS.keep cls s = s.
Proof.
  induction s as [|d s IH]; simpl; [reflexivity|]. intros H.
  rewrite (H d) by (rewrite Ascii.eqb_refl; reflexivity).
  f_equal. apply IH. intros c Hc. apply H. rewrite Hc. apply orb_true_r.
Qed.

Lemma keep_app cls s t : JS.keep cls (s ++ t) = JS.keep cls s ++ JS.keep cls t.
Proof.
  induction s as [|d s IH]; simpl; [reflexivity|].
  destruct (cls d); simpl; rewrite IH; reflexivity.
Qed.

Lemma occurs_app c s t :
  JS.occurs c (s ++ t) = (JS.occurs c s || JS.occurs c t)%bool.
Proof.
  induction s as [|d s IH]; simpl; [reflexivity|].
  rewrite IH. apply orb_assoc.
Qed.

Lemma keep_drops cls s c : cls c = false -> JS.occurs c (JS.keep cls s) = false.
Proof.
  intros Hc. destruct (JS.occurs c (JS.keep cls s)) eqn:E; [|reflexivity].
  apply keep_only in E. congruence.
Qed.

(** A number is written with digits and a sign, so without a slash. *)
Lemma show_no_slash n : JS.occurs "/" (JS.show n) = false.
Proof.
  unfold JS.show.
  assert (H : forall d, JS.occurs "/" (NilEmpty.string_of_uint d) = false).
  { induction d; simpl; auto. }
  destruct (Z.to_int n) as [d|d]; simpl; destruct d; simpl; auto.
Qed.

Lemma default_path_no_slash now file : JS.occurs "/" (default_path now file) = false.
Proof.
  unfold default_path, sanitize. rewrite !occurs_app, show_no_slash.
  rewrite keep_drops by reflexivity. reflexivity.
Qed.

(** A path without a slash is a key as it stands. *)
Lemma clean_key_plain s : JS.occurs "/" s = false -> clean_key s = s.
Proof.
  unfold clean_key. intros H.
  assert (H1 : drop_leading_slash s = s).
  { destruct s as [|c s]; [reflexivity|]. cbn [drop_leading_slash].
    cbn [JS.occurs] in H. apply orb_false_elim in H as [H _].
    unfold is_slash. rewrite Ascii.eqb_sym, H. reflexivity. }
  rewrite H1.
  assert (H2 : drop_trailing_slash s = s).
  { clear H1. induction s as [|c s IH]; [reflexivity|].
    cbn [JS.occurs] in H. apply orb_false_elim in H as [Hc Hs].
    cbn [drop_trailing_slash]. destruct s as [|d s].
    - unfold is_slash. rewrite Ascii.eqb_sym, Hc. reflexivity.
    - rewrite (IH Hs). reflexivity. }
  rewrite H2. clear H1 H2.
  induction s as [|c s IH]; [reflexivity|].
  cbn [JS.occurs] in H. apply orb_false_elim in H as [Hc Hs].
  cbn [collapse_slashes]. unfold is_slash at 1. rewrite Ascii.eqb_sym, Hc.
  rewrite (IH Hs). reflexivity.
Qed.

Lemma drop_leading_slashes_plain s :
  JS.occurs "/" s = false -> drop_leading_slashes s = s.
Proof.
  destruct s as [|c s]; [reflexivity|]. cbn [JS.occurs drop_leading_slashes].
  intros H. apply orb_false_elim in H as [H _].
  unfold is_slash. rewrite Ascii.eqb_sym, H. reflexivity.
Qed.

Lemma public_url_plain base bucket s :
  JS.occurs "/" s = false ->
  public_url base bucket s
  = JS.encodeURI (base ++ "/storage/v1/object/public/" ++ bucket ++ "/" ++ s).
Proof. intros H. unfold public_url. rewrite (drop_leading_slashes_plain _ H). reflexivity. Qed.

Lemma uploadImage_default_call bucket file w :
  calls (uploadImage bucket file None w).2
  = (calls w ++ [CallUpload bucket (default_path (clock w) file)])%list.
Proof.
  unfold uploadImage, mbind, M_bind, mret, M_ret, throw, Date_now, storage_upload,
    getPublicUrl, default_path. simpl.
  destruct (storage_faults w) as [|[|e|e] rest]; reflexivity.
Qed.

(** The characters of the class [[a-zA-Z0-9.]], by their codes. *)
Definition in_class (c : ascii) : Prop :=
  let n := nat_of_ascii c in
  (97 <= n <= 122 \/ 65 <= n <= 90 \/ 48 <= n <= 57 \/ n = 46)%nat.

Lemma alnum_dot_class c : JS.alnum_dot c = true <-> in_class c.
Proof.
  unfold JS.alnum_dot, JS.is_lower, JS.is_upper, JS.is_digit, JS.is_dot, in_class.
  cbn zeta. rewrite !orb_true_iff, !andb_true_iff, !Nat.leb_le, Nat.eqb_eq. tauto.
Qed.

Definition photo : File := {| file_name := "My Photo #1.png"; file_body := "..." |}.

(** The wizard names its uploads by its own rule, which drops the dots
    as well. *)
Lemma wizard_strip_example : Wizard.strip "My Photo #1.png" = "MyPhoto1png".
Proof. reflexivity. Qed.

End StorageFacts.

(** ** Authentication gate *)

Section GateFacts.
Import Middleware.

Context {AuthClient User Session : Type}.
Variable session_user : Session -> User.
Variable auth_setSession : string -> string -> AuthClient -> AuthClient.
Variable auth_getSession : AuthClient -> option Session * AuthClient.

Local Abbreviation gate := (onRequest session_user auth_setSession auth_getSession).

(** The session the client reports once the cookies of the request have
    been put into it: the one the protected-path check looks at. *)
Definition active_session (req : Request) (g : Gate AuthClient User Session)
  : option Session :=
  (auth_getSession (hydrated auth_setSession req (auth g))).1.

Definition starts_with_admin (req : Request) : Prop :=
  String.prefix "/admin" (pathname req) = true.

(** [isAdminPath && !isLoginPage] *)
Definition protected (req : Request) : bool :=
  (String.prefix "/admin" (pathname req) && negb (pathname req =? "/admin/login"))%bool.

(** What the cookie step of a request puts on the trace. *)
Definition hydration (req : Request) : list (Event User Session) :=
  if (JS.truthy (cookies req !! "sb-access-token")
      && JS.truthy (cookies req !! "sb-refresh-token"))%bool
  then [EvSetSession (JS.or_else (cookies req !! "sb-access-token") "")
                     (JS.or_else (cookies req !! "sb-refresh-token") "")]
  else [].

Definition populated (s : Session) : Locals User Session :=
  {| locals_user := Some (session_user s); locals_session := Some s |}.

(** One request through the gate, spelled out. *)
Lemma gate_run (req : Request) (g : Gate AuthClient User Session) :
  gate req g =
    if protected req then
      match auth_getSession (hydrated auth_setSession req (auth g)) with
      | (None, c) =>
          (Ok (Redirected "/admin/login"),
           {| auth := c; locals := locals g;
              trace := (trace g ++ hydration req
                        ++ [EvGetSession; EvRedirect "/admin/login"])%list |})
      | (Some s, c) =>
          (Ok Rendered,
           {| auth := c; locals := populated s;
              trace := (trace g ++ hydration req
                        ++ [EvGetSession; EvNext (populated s)])%list |})
      end
    else
      (Ok Rendered,
       {| auth := hydrated auth_setSession req (auth g); locals := locals g;
          trace := (trace g ++ hydration req ++ [EvNext (locals g)])%list |}).
Proof.
  unfold onRequest, protected, hydrated, hydration, populated,
    mbind, M_bind, mret, M_ret, setSession, getSession, redirect, next,
    set_locals_user, set_locals_session, emit.
  destruct (JS.truthy (cookies req !! "sb-access-token")
            && JS.truthy (cookies req !! "sb-refresh-token"))%bool;
    destruct (String.prefix "/admin" (pathname req) &&
              negb (pathname req =? "/admin/login"))%bool;
    cbn [auth locals trace];
    try (destruct (auth_getSession _) as [[s0|] c0]);
    cbn [auth locals trace locals_user locals_session];
    rewrite <- ?app_assoc; cbn [app]; try reflexivity.
  all: destruct g as [a [u s] t]; reflexivity.
Qed.

Lemma protected_spec (req : Request) :
  protected req = true
  <-> String.prefix "/admin" (pathname req) = true /\ pathname req <> "/admin/login".
Proof.
  unfold protected. rewrite andb_true_iff, negb_true_iff.
  destruct (String.eqb_spec (pathname req) "/admin/login"); split;
    intros [H1 H2]; split; congruence.
Qed.

Lemma hydration_no_next (req : Request) :
  forallb (fun e => negb (is_next e)) (hydration req) = true.
Proof. unfold hydration. destruct (_ && _)%bool; reflexivity. Qed.

(** C1: the gate answers with a redirect to [/admin/login] exactly when
    the path starts with [/admin], is not [/admin/login], and the client
    reports no session; it then never calls [next] and leaves [locals]
    alone.  When on such a path there is a session, [locals] holds its
    user and the session itself by the time [next] runs, and [next] runs
    once, last. *)
Theorem gate_redirect_iff (req : Request) (g : Gate AuthClient User Session) :
  ((gate req g).1 = Ok (Redirected "/admin/login")
   <-> starts_with_admin req /\ pathname req <> "/admin/login"
       /\ active_session req g = None)
  /\ ((gate req g).1 = Ok (Redirected "/admin/login") ->
      locals (gate req g).2 = locals g
      /\ exists evs, trace (gate req g).2 = (trace g ++ evs)%list
                     /\ forallb (fun e => negb (is_next e)) evs = true)
  /\ (forall s,
      starts_with_admin req -> pathname req <> "/admin/login" ->
      active_session req g = Some s ->
      let seen := {| locals_user := Some (session_user s);
                     locals_session := Some s |} in
      (gate req g).1 = Ok Rendered
      /\ locals (gate req g).2 = seen
      /\ exists evs, trace (gate req g).2 = (trace g ++ evs ++ [EvNext seen])%list
                     /\ forallb (fun e => negb (is_next e)) evs = true).
Proof.
  unfold active_session, starts_with_admin. rewrite gate_run.
  pose proof (protected_spec req) as Hp.
  pose proof (hydration_no_next req) as Hh.
  destruct (protected req);
    [destruct (auth_getSession (hydrated auth_setSession req (auth g)))
       as [[s0|] c0]|];
    cbn [fst snd locals trace].
  - split; [split; [discriminate|intros (_ & _ & H); discriminate H]|].
    split; [discriminate|].
    intros s _ _ [= <-]. split; [reflexivity|]. split; [reflexivity|].
    exists (hydration req ++ [EvGetSession])%list. split.
    + rewrite <- !app_assoc. reflexivity.
    + rewrite forallb_app, Hh. reflexivity.
  - split; [split; [intros _|reflexivity]|].
    { destruct Hp as [Hp _]. destruct (Hp eq_refl). repeat split; assumption. }
    split; [|intros s _ _ H; discriminate H].
    intros _. split; [reflexivity|]. eexists. split; [reflexivity|].
    rewrite forallb_app, Hh. reflexivity.
  - split; [split; [discriminate|]|].
    { intros (H1 & H2 & _). destruct Hp as [_ Hp].
      discriminate (Hp (conj H1 H2)). }
    split; [discriminate|].
    intros s H1 H2 _. destruct Hp as [_ Hp]. discriminate (Hp (conj H1 H2)).
Qed.

(** The reading of the hydration rule under which a cookie counts as
    soon as it is there, whatever it holds. *)
Definition hydrates_whenever_present : Prop :=
  forall (req : Request) (g : Gate AuthClient User Session) a r,
    cookies req !! "sb-access-token" = Some a ->
    cookies req !! "sb-refresh-token" = Some r ->
    exists evs, trace (gate req g).2 = (trace g ++ EvSetSession a r :: evs)%list.

Lemma hydration_of_tokens (req : Request) a r :
  cookies req !! "sb-access-token" = Some a -> a <> "" ->
  cookies req !! "sb-refresh-token" = Some r -> r <> "" ->
  hydration req = [EvSetSession a r]
  /\ forall c, hydrated auth_setSession req c = auth_setSession a r c.
Proof.
  intros Ha Hane Hr Hrne. unfold hydration, hydrated. rewrite Ha, Hr. simpl.
  destruct (String.eqb_spec a ""); [contradiction|].
  destruct (String.eqb_spec r ""); [contradiction|]. split; reflexivity.
Qed.

(** C3, amended: when both token cookies hold a non-empty value, the
    first thing the gate does, on any path, is [setSession] with the two
    values, once; the session check and the redirect decision are made
    on the client that [setSession] left. *)
Theorem hydration_first (req : Request) (g : Gate AuthClient User Session) a r :
  cookies req !! "sb-access-token" = Some a -> a <> "" ->
  cookies req !! "sb-refresh-token" = Some r -> r <> "" ->
  (exists evs,
      trace (gate req g).2 = (trace g ++ EvSetSession a r :: evs)%list
      /\ forallb (fun e => negb (is_set_session e)) evs = true)
  /\ active_session req g = (auth_getSession (auth_setSession a r (auth g))).1
  /\ ((gate req g).1 = Ok (Redirected "/admin/login")
      <-> protected req = true
          /\ (auth_getSession (auth_setSession a r (auth g))).1 = None)
  /\ (protected req = false ->
      auth (gate req g).2 = auth_setSession a r (auth g)).
Proof.
  intros Ha Hane Hr Hrne.
  destruct (hydration_of_tokens req a r Ha Hane Hr Hrne) as [Hev Hcl].
  unfold active_session. rewrite gate_run, Hev, !Hcl.
  destruct (protected req);
    [destruct (auth_getSession (auth_setSession a r (auth g))) as [[s0|] c0]|];
    cbn [fst snd auth trace app].
  - split; [eexists; split; reflexivity|]. split; [reflexivity|].
    split; [|discriminate]. split; [discriminate|intros [_ H]; discriminate H].
  - split; [eexists; split; reflexivity|]. split; [reflexivity|].
    split; [|discriminate]. split; [intros _; split; reflexivity|reflexivity].
  - split; [eexists; split; reflexivity|]. split; [reflexivity|].
    split; [|reflexivity]. split; [discriminate|intros [H _]; discriminate H].
Qed.

End GateFacts.

(** A small auth service to run the gate against: the access token
    [good-access] belongs to the user [mia]; any other token leaves the
    client as it was. *)
Section GateRuns.
Import Middleware.

Definition toy_setSession (a r : string) (c : option string) : option string :=
  if a =? "good-access" then Some "mia" else c.

Definition toy_getSession (c : option string) : option string * option string := (c, c).

Definition toy_gate : Request -> M (Gate (option string) string string) Response :=
  onRequest (fun s : string => s) toy_setSession toy_getSession.

Definition fresh_gate : Gate (option string) string string :=
  {| auth := None;
     locals := {| locals_user := None; locals_session := None |};
     trace := [] |}.

Definition request (path : string) (cs : list (string * string)) : Request :=
  {| pathname := path; cookies := list_to_map cs |}.

Definition good_cookies : list (string * string) :=
  [ ("sb-access-token", "good-access"); ("sb-refresh-token", "good-refresh") ].

Lemma gate_redirect_iff_witness :
  (toy_gate (request "/admin/dashboard" []) fresh_gate).1
    = Ok (Redirected "/admin/login")
  /\ (toy_gate (request "/admin/login" []) fresh_gate).1 = Ok Rendered
  /\ locals (toy_gate (request "/admin/anything" good_cookies) fresh_gate).2
     = {| locals_user := Some "mia"; locals_session := Some "mia" |}.
Proof.
  split; [|split].
  - apply (gate_redirect_iff (fun s : string => s) toy_setSession toy_getSession
             (request "/admin/dashboard" []) fresh_gate).
    repeat split. discriminate.
  - reflexivity.
  - apply (gate_redirect_iff (fun s : string => s) toy_setSession toy_getSession
             (request "/admin/anything" good_cookies) fresh_gate);
      [reflexivity|discriminate|reflexivity].
Defined.

Lemma hydration_first_witness :
  exists evs,
    trace (toy_gate (request "/portfolio" good_cookies) fresh_gate).2
    = EvSetSession "good-access" "good-refresh" :: evs.
Proof.
  destruct (hydration_first (fun s : string => s) toy_setSession toy_getSession
              (request "/portfolio" good_cookies) fresh_gate
              "good-access" "good-refresh")
    as ((evs & Hev & _) & _); [reflexivity|discriminate|reflexivity|discriminate|].
  exists evs. exact Hev.
Defined.

(** C3 as stated fails on a cookie that is present but empty: the
    request below carries both cookies, and the gate goes on to the
    session check without any [setSession]. *)
Lemma empty_cookie_not_hydrated :
  trace (toy_gate (request "/admin/dashboard"
                     [ ("sb-access-token", ""); ("sb-refresh-token", "good-refresh") ])
           fresh_gate).2
    = [EvGetSession; EvRedirect "/admin/login"]
  /\ ~ hydrates_whenever_present (fun s : string => s) toy_setSession toy_getSession.
Proof.
  split; [reflexivity|].
  intros H.
  destruct (H (request "/admin/dashboard"
                 [ ("sb-access-token", ""); ("sb-refresh-token", "good-refresh") ])
              fresh_gate "" "good-refresh" eq_refl eq_refl) as [evs Hevs].
  discriminate Hevs.
Qed.

End GateRuns.

(** ** Booking wizard *)

Section WizardFacts.
Import Backend Wizard.

Definition quiet_call (c : Call) : bool := negb (is_insert c).

(** The world after the upload of [file] at the head of the loop. *)
Definition after_upload (file : File) (w : World) : World :=
  let fileName := JS.show (clock w) ++ "-" ++ strip (file_name file) in
  let w1 := set_storage_faults (tail (storage_faults w))
              (log (CallUpload bucket fileName) w) in
  match storage_faults w with
  | Refused _ :: _ | Crashed _ :: _ => w1
  | _ => set_objects (objects w ++ [{| obj_bucket := bucket; obj_path := fileName;
                                       obj_file := file |}]) w1
  end.

Lemma wizard_key_no_slash now file :
  JS.occurs "/" (JS.show now ++ "-" ++ strip (file_name file)) = false.
Proof.
  unfold strip. rewrite !occurs_app, show_no_slash.
  rewrite keep_drops by reflexivity. reflexivity.
Qed.

(** One turn of the loop. *)
Lemma upload_each_cons file rest urls w :
  upload_each (file :: rest) urls w =
    match storage_faults w with
    | Refused _ :: _ => upload_each rest urls (after_upload file w)
    | Crashed e :: _ => (Throw e, after_upload file w)
    | _ => upload_each rest (urls ++ [url_of (endpoint w) (clock w) file])
             (after_upload file w)
    end.
Proof.
  cbn [upload_each].
  unfold mbind, M_bind, Date_now, storage_upload, getPublicUrl, after_upload, url_of.
  rewrite (clean_key_plain _ (wizard_key_no_slash (clock w) file)).
  cbn [storage_faults log objects endpoint].
  destruct (storage_faults w) as [|[|e|e] sf]; reflexivity.
Qed.

Lemma after_upload_frame file w :
  tables (after_upload file w) = tables w
  /\ db_faults (after_upload file w) = db_faults w
  /\ clock (after_upload file w) = clock w
  /\ endpoint (after_upload file w) = endpoint w
  /\ storage_faults (after_upload file w) = tail (storage_faults w)
  /\ calls (after_upload file w)
     = (calls w ++ [CallUpload bucket
                      (JS.show (clock w) ++ "-" ++ strip (file_name file))])%list.
Proof.
  unfold after_upload. destruct (storage_faults w) as [|[|e|e] sf];
    repeat split; reflexivity.
Qed.

Lemma after_upload_generated file w : generated (after_upload file w) = generated w.
Proof. unfold after_upload. destruct (storage_faults w) as [|[|e|e] sf]; reflexivity. Qed.

Lemma upload_each_generated (files : list File) :
  forall urls w, generated (upload_each files urls w).2 = generated w.
Proof.
  induction files as [|file rest IH]; intros urls w; [reflexivity|].
  rewrite upload_each_cons.
  destruct (storage_faults w) as [|[|e|e] sf] eqn:E;
    try (rewrite IH; apply after_upload_generated).
  apply after_upload_generated.
Qed.

Lemma outcomes_tail n (sf : list StorageOutcome) :
  outcomes (S n) sf
  = match sf with [] => Stored | o :: _ => o end :: outcomes n (tail sf).
Proof. destruct sf; reflexivity. Qed.

(** The loop over the selected files: it touches neither the tables nor
    the clock, issues uploads only, rejects if one of the uploads does,
    and otherwise ends with the URLs of the stored uploads pushed, in
    order, after the ones already there. *)
Lemma upload_each_run (files : list File) :
  forall urls w,
    exists w',
      tables w' = tables w /\ db_faults w' = db_faults w
      /\ clock w' = clock w /\ endpoint w' = endpoint w
      /\ (exists cs, calls w' = (calls w ++ cs)%list /\ forallb quiet_call cs = true)
      /\ if existsb crashed (outcomes (length files) (storage_faults w))
         then exists e, upload_each files urls w = (Throw e, w')
         else upload_each files urls w
              = (Ok (urls ++ stored_urls (endpoint w) (clock w) files
                               (outcomes (length files) (storage_faults w)))%list, w').
Proof.
  induction files as [|file rest IH]; intros urls w.
  - exists w. repeat split; try reflexivity.
    + exists []. rewrite app_nil_r. split; reflexivity.
    + cbn. rewrite app_nil_r. reflexivity.
  - cbn [length]. rewrite upload_each_cons, outcomes_tail.
    destruct (after_upload_frame file w) as (Ft & Ff & Fc & Fe & Fs & Fl).
    assert (Hstep : forall urls',
      exists w',
        tables w' = tables w /\ db_faults w' = db_faults w
        /\ clock w' = clock w /\ endpoint w' = endpoint w
        /\ (exists cs, calls w' = (calls w ++ cs)%list /\ forallb quiet_call cs = true)
        /\ if existsb crashed (outcomes (length rest) (tail (storage_faults w)))
           then exists e, upload_each rest urls' (after_upload file w) = (Throw e, w')
           else upload_each rest urls' (after_upload file w)
                = (Ok (urls' ++ stored_urls (endpoint w) (clock w) rest
                                 (outcomes (length rest) (tail (storage_faults w))))%list,
                   w')).
    { intros urls'.
      destruct (IH urls' (after_upload file w))
        as (w' & Ht & Hf & Hc & Hb & (cs & Hcs & Hq) & Hrun).
      rewrite Fs, Fe, Fc in Hrun.
      exists w'. rewrite Ht, Hf, Hc, Hb. repeat split; try assumption.
      eexists. rewrite Hcs, Fl, <- app_assoc. split; [reflexivity|]. exact Hq. }
    destruct (storage_faults w) as [|[|e|e] sf]; cbn [existsb crashed orb stored_urls stored].
    + destruct (Hstep (urls ++ [url_of (endpoint w) (clock w) file])%list)
        as (w' & H1 & H2 & H3 & H4 & H5 & Hrun).
      exists w'. repeat split; try assumption.
      destruct (existsb crashed _); [exact Hrun|].
      rewrite Hrun, <- app_assoc. reflexivity.
    + destruct (Hstep (urls ++ [url_of (endpoint w) (clock w) file])%list)
        as (w' & H1 & H2 & H3 & H4 & H5 & Hrun).
      exists w'. repeat split; try assumption.
      destruct (existsb crashed _); [exact Hrun|].
      rewrite Hrun, <- app_assoc. reflexivity.
    + destruct (Hstep urls) as (w' & H1 & H2 & H3 & H4 & H5 & Hrun).
      exists w'. repeat split; assumption.
    + exists (after_upload file w). repeat split; try assumption.
      * eexists. split; [exact Fl|reflexivity].
      * eexists. reflexivity.
Qed.

Lemma exec_insert row t w :
  exists r w'',
    exec (from t |> insert row) w = (Ok r, w'')
    /\ calls w'' = (calls w ++ [CallDb (from t |> insert row)])%list
    /\ (db_fault w = None ->
        error r = None
        /\ table_rows t w'' = (table_rows t w ++ [stored_row t row w])%list).
Proof.
  destruct (db_fault w) as [e|] eqn:Hf.
  - rewrite (exec_faulty _ _ _ Hf). do 2 eexists.
    split; [reflexivity|]. split; [reflexivity|discriminate].
  - rewrite (exec_quiet _ _ Hf).
    unfold apply_verb, answer, commit, from, insert, start.
    cbn [q_verb q_filters q_table q_single q_returning q_columns error].
    do 2 eexists. split; [reflexivity|]. split; [reflexivity|].
    intros _. split; [reflexivity|].
    unfold table_rows at 1. cbn [tables set_tables].
    rewrite lookup_insert_eq. reflexivity.
Qed.

Lemma issued_app w w' cs : calls w' = (calls w ++ cs)%list -> issued w w' = cs.
Proof. intros H. unfold issued. rewrite H. apply drop_app_length. Qed.

Lemma outcomes_length n sf : length (outcomes n sf) = n.
Proof.
  revert sf. induction n as [|n IH]; intros sf; [reflexivity|].
  destruct sf; cbn; rewrite IH; reflexivity.
Qed.

Lemma stored_urls_all base now files : forall outs,
  length outs = length files ->
  forallb stored outs = true ->
  stored_urls base now files outs = map (url_of base now) files.
Proof.
  induction files as [|f files IH]; intros [|o outs] Hl Ha; try discriminate;
    [reflexivity|].
  cbn in *. apply andb_true_iff in Ha as [Ho Ha]. rewrite Ho.
  f_equal. apply IH; [congruence|assumption].
Qed.

Lemma stored_urls_count base now files : forall outs,
  length outs = length files ->
  length (stored_urls base now files outs) = length (List.filter stored outs).
Proof.
  induction files as [|f files IH]; intros [|o outs] Hl; try discriminate;
    [reflexivity|].
  cbn in *. destruct (stored o); cbn; rewrite IH by congruence; reflexivity.
Qed.

(** The reading of the submission rule under which an upload that fails
    in any way keeps the insert from being issued. *)
Definition failed_upload_blocks_insert : Prop :=
  forall formData files p,
    forallb stored (outcomes (length files) (storage_faults (world p))) = false ->
    forallb quiet_call (issued (world p) (submit formData (Some files) p).2.(world))
    = true.


Definition quota_error : BackendError :=
  {| code := "413"; message := "The object exceeded the maximum allowed size" |}.

Definition network_error : BackendError :=
  {| code := ""; message := "TypeError: Failed to fetch" |}.

Definition sketch : File := {| file_name := "sketch 2.jpg"; file_body := "..." |}.

(** The booking page before submission, with the given fate of the
    coming uploads. *)
Definition page_with (fates : list StorageOutcome) : Page :=
  {| world := set_storage_faults fates (world_of [] [] [] []);
     ui := {| form_hidden := false; loading_hidden := true;
              success_hidden := true; alerts := [] |} |}.

Definition form_filled : gmap string string :=
  list_to_map [ ("first_name", "Ada"); ("last_name", "Moreau");
                ("email", "ada@kow.example"); ("phone", "555-0100");
                ("idea", "sleeve concept"); ("placement", "forearm");
                ("size", "3-5 inches") ].



End WizardFacts.

(** ** Naming of uploads *)

Section NamingFacts.
Import Backend Facade Wizard.

(** The first call of a submission with a file is the upload of that
    file under the wizard's own key. *)
Lemma wizard_first_call formData file files p :
  exists rest,
    issued (world p) (world (submit formData (Some (file :: files)) p).2)
    = CallUpload Wizard.bucket
        (JS.show (clock (world p)) ++ "-" ++ strip (file_name file)) :: rest.
Proof.
  set (w := world p).
  destruct (after_upload_frame file w) as (_ & _ & _ & _ & _ & Fl).
  assert (Hup : exists cs, calls (upload_each (file :: files) [] w).2
                           = (calls w ++ CallUpload Wizard.bucket
                                (JS.show (clock w) ++ "-" ++ strip (file_name file))
                                :: cs)%list).
  { rewrite upload_each_cons.
    assert (Hrest : forall urls, exists cs,
              calls (upload_each files urls (after_upload file w)).2
              = (calls w ++ CallUpload Wizard.bucket
                   (JS.show (clock w) ++ "-" ++ strip (file_name file)) :: cs)%list).
    { intros urls.
      destruct (upload_each_run files urls (after_upload file w))
        as (w' & _ & _ & _ & _ & (cs & Hcs & _) & Hrun).
      exists cs. rewrite Fl, <- app_assoc in Hcs. cbn [app] in Hcs.
      destruct (existsb crashed _).
      - destruct Hrun as [e Hrun]. rewrite Hrun. exact Hcs.
      - rewrite Hrun. exact Hcs. }
    destruct (storage_faults w) as [|[|e|e] sf]; try apply Hrest.
    exists []. cbn [snd]. exact Fl. }
  destruct Hup as [cs Hcs].
  unfold submit, mbind, M_bind, dom, lift. cbn [world ui]. fold w.
  destruct (upload_each (file :: files) [] w) as [[urls|e] w1]; cbn [snd] in Hcs.
  - cbn [world].
    pose proof (exec_calls (from "bookings" |> insert (booking_row formData urls)) w1)
      as Hlog.
    destruct (exec _ w1) as [[r|e] w2]; cbn [snd] in Hlog; cbn [world ui].
    + exists (cs ++ [CallDb (from "bookings" |> insert (booking_row formData urls))])%list.
      assert (Hw : calls w2 = (calls w ++ CallUpload Wizard.bucket
                   (JS.show (clock w) ++ "-" ++ strip (file_name file))
                   :: cs ++ [CallDb (from "bookings"
                                      |> insert (booking_row formData urls))])%list).
      { rewrite Hlog, Hcs, <- app_assoc. reflexivity. }
      destruct (error r); cbn [snd world]; apply issued_app; exact Hw.
    + exists (cs ++ [CallDb (from "bookings" |> insert (booking_row formData urls))])%list.
      cbn [snd world]. apply issued_app. rewrite Hlog, Hcs, <- app_assoc. reflexivity.
  - exists cs. cbn [snd world]. apply issued_app. exact Hcs.
Qed.



(** The reading of the naming rule under which the wizard follows it as
    well: a submission asks the object store, for its file, for the key
    that [uploadImage] asks for by default. *)
Definition wizard_uses_default_path : Prop :=
  forall formData file p,
    In (CallUpload bucket (default_path (clock (world p)) file))
       (issued (world p) (submit formData (Some [file]) p).2.(world)).


End NamingFacts.

(** ** Realtime subscriptions *)

Section FeedFacts.
Import Realtime.

Context {App : Type}.

Implicit Types (c : Client App) (ch : Channel App) (b : Binding App) (o : Op App).

(** Channel [h] was handed out and is no longer open. *)
Definition closed (h : nat) c : Prop :=
  h < next_ref c /\ ~ In h (map ch_ref (channels c)).

Lemma filter_twice {A} (f : A -> bool) (l : list A) :
  List.filter f (List.filter f l) = List.filter f l.
Proof.
  induction l as [|x l IH]; [reflexivity|]. cbn [List.filter].
  destruct (f x) eqn:E; [cbn [List.filter]; rewrite E, IH|]; auto.
Qed.

Lemma removeChannel_twice h c :
  removeChannel h (removeChannel h c) = removeChannel h c.
Proof.
  unfold removeChannel, set_channels. cbn [channels next_ref app delivered].
  rewrite filter_twice. reflexivity.
Qed.

Lemma removeChannel_closed h c : h < next_ref c -> closed h (removeChannel h c).
Proof.
  intros Hlt. split; [exact Hlt|].
  unfold removeChannel, set_channels. cbn [channels].
  induction (channels c) as [|ch l IH]; [intros []|].
  cbn [List.filter]. destruct (Nat.eqb_spec (ch_ref ch) h) as [E|E]; cbn [negb].
  - exact IH.
  - cbn [map In]. intros [H|H]; [exact (E H)|exact (IH H)].
Qed.

Lemma on_channel_refs h f c :
  (forall ch, ch_ref (f ch) = ch_ref ch) ->
  map ch_ref (channels (on_channel h f c)) = map ch_ref (channels c).
Proof.
  intros Hf. unfold on_channel, set_channels. cbn [channels].
  induction (channels c) as [|ch l IH]; [reflexivity|].
  cbn [map]. rewrite IH. f_equal.
  destruct (Nat.eqb (ch_ref ch) h); [apply Hf|reflexivity].
Qed.

Lemma subscribe_shape bookingId cb c :
  let c1 := (subscribeToMessages bookingId cb c).2 in
  map ch_ref (channels c1) = (map ch_ref (channels c) ++ [next_ref c])%list
  /\ next_ref c1 = S (next_ref c)
  /\ delivered c1 = delivered c.
Proof.
  unfold subscribeToMessages, channel, on, subscribe. cbn [snd].
  split; [|split; reflexivity].
  rewrite !on_channel_refs by reflexivity.
  cbn [channels]. rewrite map_app. reflexivity.
Qed.

Lemma invoke_fold h' m bs : forall c,
  let c' := fold_left (invoke h' m) bs c in
  channels c' = channels c /\ next_ref c' = next_ref c
  /\ delivered c' = (delivered c ++ map (fun _ => (h', m)) bs)%list.
Proof.
  induction bs as [|b bs IH]; intros c; cbn [fold_left map].
  - rewrite app_nil_r. repeat split.
  - destruct (IH (invoke h' m c b)) as (H1 & H2 & H3).
    rewrite H1, H2, H3. cbn [invoke channels next_ref delivered].
    rewrite <- app_assoc. repeat split.
Qed.

Lemma filter_other_ref {B} h h' (m : Message) (bs : list B) l :
  h' <> h ->
  List.filter (fun d : nat * Message => Nat.eqb d.1 h)
    (l ++ map (fun _ => (h', m)) bs)%list
  = List.filter (fun d : nat * Message => Nat.eqb d.1 h) l.
Proof.
  intros Hne. rewrite List.filter_app.
  replace (List.filter _ (map _ bs)) with (@nil (nat * Message)).
  - apply app_nil_r.
  - induction bs as [|b bs IH]; [reflexivity|]. cbn.
    destruct (Nat.eqb_spec h' h); [contradiction|exact IH].
Qed.

Lemma notify_fold h table m chs : forall c,
  ~ In h (map ch_ref chs) ->
  let c' := fold_left (notify_channel table m) chs c in
  channels c' = channels c /\ next_ref c' = next_ref c
  /\ delivered_to h c' = delivered_to h c.
Proof.
  induction chs as [|ch chs IH]; intros c Hnot; cbn [fold_left].
  - repeat split.
  - cbn [map In] in Hnot.
    destruct (IH (notify_channel table m c ch)) as (H1 & H2 & H3).
    { intros H. apply Hnot. right. exact H. }
    rewrite H1, H2, H3. unfold notify_channel.
    destruct (ch_joined ch); [|repeat split].
    destruct (invoke_fold (ch_ref ch) m
                (List.filter (listens table m) (ch_bindings ch)) c) as (G1 & G2 & G3).
    rewrite G1, G2. unfold delivered_to. rewrite G3.
    repeat split. apply filter_other_ref. intros E. apply Hnot. left. exact E.
Qed.

Lemma step_closed h c o :
  closed h c -> closed h (step c o) /\ delivered_to h (step c o) = delivered_to h c.
Proof.
  intros [Hlt Hnot]. destruct o as [bookingId cb|h'|table m]; cbn [step].
  - destruct (subscribe_shape bookingId cb c) as (Hr & Hn & Hd).
    cbn zeta in Hr, Hn, Hd. unfold closed, delivered_to. rewrite Hr, Hn, Hd.
    repeat split; [lia|].
    rewrite in_app_iff. cbn [In]. intros [H|[H|[]]]; [exact (Hnot H)|lia].
  - unfold closed, delivered_to, removeChannel, set_channels.
    cbn [channels next_ref delivered]. repeat split; [exact Hlt|].
    intros H. apply Hnot. clear -H.
    induction (channels c) as [|ch l IH]; [exact H|].
    cbn [List.filter] in H. cbn [map In].
    destruct (negb (Nat.eqb (ch_ref ch) h')); [|right; exact (IH H)].
    cbn [map In] in H. destruct H as [H|H]; [left; exact H|right; exact (IH H)].
  - destruct (notify_fold h table m (channels c) c Hnot) as (H1 & H2 & H3).
    unfold notify, closed. rewrite H1, H2, H3. repeat split; assumption.
Qed.

Lemma run_closed h ops : forall c,
  closed h c -> delivered_to h (run ops c) = delivered_to h c.
Proof.
  unfold run. induction ops as [|o ops IH]; intros c Hc; [reflexivity|].
  cbn [fold_left]. destruct (step_closed h c o Hc) as [Hc' Hd].
  rewrite (IH _ Hc'). exact Hd.
Qed.

Lemma step_next_ref c o : next_ref c <= next_ref (step c o).
Proof.
  destruct o as [bookingId cb|h'|table m]; cbn [step].
  - destruct (subscribe_shape bookingId cb c) as (_ & Hn & _).
    cbn zeta in Hn. rewrite Hn. lia.
  - reflexivity.
  - unfold notify.
    assert (H : forall chs c0, next_ref (fold_left (notify_channel table m) chs c0)
                               = next_ref c0).
    { induction chs as [|ch chs IH]; intros c0; [reflexivity|].
      cbn [fold_left]. rewrite IH. unfold notify_channel.
      destruct (ch_joined ch); [|reflexivity].
      apply (invoke_fold (ch_ref ch) m _ c0). }
    rewrite H. lia.
Qed.

Lemma run_next_ref ops : forall c, next_ref c <= next_ref (run ops c).
Proof.
  unfold run. induction ops as [|o ops IH]; intros c; [reflexivity|].
  cbn [fold_left]. etransitivity; [apply step_next_ref|apply IH].
Qed.

Lemma teardown_is_remove bookingId (callback : Message -> App -> App) c :
  (subscribeToMessages bookingId callback c).1 = removeChannel (next_ref c).
Proof. reflexivity. Qed.

Lemma removeChannel_of_closed h c : closed h c -> removeChannel h c = c.
Proof.
  intros [_ Hnot]. destruct c as [chs n a d].
  unfold removeChannel, set_channels. cbn [channels next_ref app delivered] in *.
  f_equal. induction chs as [|ch chs IH]; [reflexivity|].
  cbn [List.filter map In] in *.
  destruct (Nat.eqb_spec (ch_ref ch) h) as [E|E]; cbn [negb].
  - exfalso. apply Hnot. left. exact E.
  - f_equal. apply IH. intros H. apply Hnot. right. exact H.
Qed.


(** A client whose handlers collect the text of what they receive. *)
Definition empty_client : Client (list string) :=
  {| channels := []; next_ref := 0; app := []; delivered := [] |}.

Definition collect (m : Message) (seen : list string) : list string :=
  (seen ++ [content m])%list.

Definition note (booking text : string) : Message :=
  {| msg_id := "m"; created_at := "2026-01-01T00:00:00Z"; booking_id := booking;
     sender_role := "client"; content := text |}.

(** Before the teardown the handler is invoked for rows of its booking
    and only for them; after it, not at all, and a second teardown
    changes nothing. *)
Lemma subscription_example :
  let sub := subscribeToMessages "b1" collect empty_client in
  let live := notify "messages" (note "b2" "other")
                (notify "messages" (note "b1" "hello") sub.2) in
  let torn := sub.1 live in
  app live = ["hello"]
  /\ delivered live = [(0, note "b1" "hello")]
  /\ notify "messages" (note "b1" "again") torn = torn
  /\ sub.1 torn = torn.
Proof. repeat split. Qed.

End FeedFacts.


(** * The rest of the facade: listings, inserts, the settings upsert *)

From stdpp Require Import sorting.

Module FacadeRest.
Import Backend Facade.

Inductive ImageCategory := featured | portfolio | flash.

Definition category_text (c : ImageCategory) : string :=
  match c with
  | featured => "featured"
  | portfolio => "portfolio"
  | flash => "flash"
  end.

Inductive MessageSenderRole := admin | client.

Definition role_text (r : MessageSenderRole) : string :=
  match r with
  | admin => "admin"
  | client => "client"
  end.

Section Ordered.

(** The backend's ascending order on what a column can hold ([None]: the
    row has no such field).  Which order that is depends on the column
    type and is the backend's business. *)
Variable precedes : option Value -> option Value -> bool.

(** [new Date(ms).toISOString()] *)
Variable toISOString : Z -> string.

(** A query with its [.order(...)] clause. *)
Record Ordered := { o_query : Query; o_order : option (string * bool) }.

(** [.order(column, { ascending })] *)
Definition order (column : string) (ascending : bool) (q : Query) : Ordered :=
  {| o_query := q; o_order := Some (column, ascending) |}.

(** [.eq(column, value)] on a query that already has its order. *)
Definition and_eq (c : string) (v : Value) (o : Ordered) : Ordered :=
  {| o_query := eq c v (o_query o); o_order := o_order o |}.

Definition by_column (column : string) (ascending : bool) : relation Row :=
  fun r1 r2 =>
    if ascending then precedes (r1 !! column) (r2 !! column) = true
    else precedes (r2 !! column) (r1 !! column) = true.

#[global] Instance by_column_dec column ascending : RelDecision (by_column column ascending).
Proof. intros r1 r2. unfold by_column. destruct ascending; apply _. Defined.

Definition arrange (o : option (string * bool)) (rows : list Row) : list Row :=
  match o with
  | Some (column, ascending) => merge_sort (by_column column ascending) rows
  | None => rows
  end.

(** [await query] for an ordered query: the rows come back arranged. *)
Definition await (o : Ordered) : M World Response :=
  r ← exec (o_query o);
  mret (match data r with
        | DRows rows => {| data := DRows (arrange (o_order o) rows); error := error r |}
        | _ => r
        end).

(** ** Content images *)

Definition getContentImages (category : option ImageCategory) : M World Data :=
  let query := from "content_images" |> select AllColumns
               |> order "display_order" true in
  let query := match category with
               | Some c => query |> and_eq "category" (VStr (category_text c))
               | None => query
               end in
  r ← await query;
  match error r with
  | Some e => throw e
  | None => mret (data r)
  end.

Definition getFeaturedImages : M World Data :=
  r ← await (from "content_images" |> select AllColumns
             |> eq "is_featured" (VBool true) |> order "display_order" true);
  match error r with
  | Some e => throw e
  | None => mret (data r)
  end.

Definition getPortfolioImages : M World Data := getContentImages (Some portfolio).

Definition getFlashDesigns : M World Data := getContentImages (Some flash).

Definition createContentImage (image : Row) : M World Data :=
  r ← exec (from "content_images" |> insert image |> returning |> single);
  match error r with
  | Some e => throw e
  | None => mret (data r)
  end.

(** ** Site settings *)

(** [.upsert(row, { onConflict }).select().single()]: one round trip,
    [INSERT ... ON CONFLICT (onConflict) DO UPDATE].  It acts as the
    update of the row that holds the same value in the conflict column
    when there is one, and as an insert otherwise. *)
Definition upsert_single (t : string) (row : Row) (onConflict : string)
  : M World Response := fun w =>
  match row !! onConflict with
  | Some v =>
      if existsb (matches [(onConflict, v)]) (table_rows t w)
      then exec (from t |> update row |> eq onConflict v |> returning |> single) w
      else exec (from t |> insert row |> returning |> single) w
  | None => exec (from t |> insert row |> returning |> single) w
  end.

Definition setSiteSetting (key value : string) : M World Data :=
  now ← Date_now;
  r ← upsert_single "site_settings"
        (list_to_map [ ("key", VStr key); ("value", VStr value);
                       ("created_at", VStr (toISOString now)) ])
        "key";
  match error r with
  | Some e => throw e
  | None => mret (data r)
  end.

Definition getContactInfo : M World Value := getSiteSetting "contact_info".

Definition getPolicyText : M World Value := getSiteSetting "policy_text".

(** ** Bookings *)

Definition getBookings (status : option BookingStatus) : M World Data :=
  let query := from "bookings" |> select AllColumns |> order "created_at" false in
  let query := match status with
               | Some s => query |> and_eq "status" (VStr (status_text s))
               | None => query
               end in
  r ← await query;
  match error r with
  | Some e => throw e
  | None => mret (data r)
  end.

(** ** Messages *)

Definition getMessages (bookingId : string) : M World Data :=
  r ← await (from "messages" |> select AllColumns
             |> eq "booking_id" (VStr bookingId) |> order "created_at" true);
  match error r with
  | Some e => throw e
  | None => mret (data r)
  end.

Definition message_row (bookingId : string) (senderRole : MessageSenderRole)
    (content : string) : Row :=
  list_to_map [ ("booking_id", VStr bookingId);
                ("sender_role", VStr (role_text senderRole));
                ("content", VStr content) ].

Definition sendMessage (bookingId : string) (senderRole : MessageSenderRole)
    (content : string) : M World Data :=
  r ← exec (from "messages" |> insert (message_row bookingId senderRole content)
            |> returning |> single);
  match error r with
  | Some e => throw e
  | None => mret (data r)
  end.

End Ordered.

End FacadeRest.

(** * Booking wizard: step navigation *)

Module Steps.

(** The markup has four [.form-step] elements, [data-step] 1 to 4. *)
Definition step_exists (k : Z) : bool := ((1 <=? k) && (k <=? 4))%Z.

(** [currentStep] and the steps whose element carries the [hidden] class. *)
Record Nav := { currentStep : Z; hidden : gset Z }.

(** [document.querySelector(`[data-step="${k}"]`)?.classList.add('hidden')] *)
Definition add_hidden (k : Z) (h : gset Z) : gset Z :=
  if step_exists k then {[ k ]} ∪ h else h.

(** [document.querySelector(`[data-step="${k}"]`)?.classList.remove('hidden')] *)
Definition remove_hidden (k : Z) (h : gset Z) : gset Z :=
  if step_exists k then h ∖ {[ k ]} else h.

(** The listener of every [.btn-next]. *)
Definition click_next (n : Nav) : Nav :=
  let h := add_hidden (currentStep n) (hidden n) in
  let s := (currentStep n + 1)%Z in
  {| currentStep := s; hidden := remove_hidden s h |}.

(** The listener of every [.btn-prev]. *)
Definition click_prev (n : Nav) : Nav :=
  let h := add_hidden (currentStep n) (hidden n) in
  let s := (currentStep n - 1)%Z in
  {| currentStep := s; hidden := remove_hidden s h |}.

(** The page as loaded: [let currentStep = 1], steps 2 to 4 hidden. *)
Definition loaded : Nav := {| currentStep := 1; hidden := {[ 2%Z; 3%Z; 4%Z ]} |}.

(** A click on the button of its kind that sits in step [k]. *)
Inductive Click :=
| Next (k : Z)
| Prev (k : Z).

(** The buttons of the markup: Next in steps 1 to 3, Back in steps 2 to 4. *)
Definition in_markup (c : Click) : bool :=
  match c with
  | Next k => ((1 <=? k) && (k <=? 3))%Z
  | Prev k => ((2 <=? k) && (k <=? 4))%Z
  end.

Definition step_of (c : Click) : Z :=
  match c with Next k | Prev k => k end.

Definition shown (n : Nav) (k : Z) : bool :=
  (step_exists k && negb (bool_decide (k ∈ hidden n)))%bool.

(** A user can click a button that exists and whose step is shown. *)
Definition clickable (n : Nav) (c : Click) : bool :=
  (in_markup c && shown n (step_of c))%bool.

Definition handle (n : Nav) (c : Click) : Nav :=
  match c with
  | Next _ => click_next n
  | Prev _ => click_prev n
  end.

(** A session of clicks; [None] when one of them is not possible. *)
Fixpoint clicks (cs : list Click) (n : Nav) : option Nav :=
  match cs with
  | [] => Some n
  | c :: cs' => if clickable n c then clicks cs' (handle n c) else None
  end.

End Steps.

(** * Theme: the inline script of the layout and the toggle button *)

Module Theme.

Record Doc := {
  (** [document.documentElement] has the class [dark] *)
  dark : bool;
  (** [localStorage.getItem('theme')] *)
  stored : option string;
  (** [window.matchMedia('(prefers-color-scheme: dark)').matches] *)
  prefers_dark : bool
}.

(** The value of the [theme] constant of the inline script. *)
Definition theme (d : Doc) : string :=
  if JS.truthy (stored d) then JS.or_else (stored d) ""
  else if prefers_dark d then "dark"
  else "light".

(** The inline script, run at every page load. *)
Definition init (d : Doc) : Doc :=
  {| dark := String.eqb (theme d) "dark"; stored := stored d; prefers_dark := prefers_dark d |}.

Definition handleToggleClick (d : Doc) : Doc :=
  let isDark := negb (dark d) in
  {| dark := isDark;
     stored := Some (if isDark then "dark" else "light");
     prefers_dark := prefers_dark d |}.

(** A page load in a browser that kept the storage: the class list
    starts empty, whatever the system preference is by then. *)
Definition reload (system_dark : bool) (d : Doc) : Doc :=
  init {| dark := false; stored := stored d; prefers_dark := system_dark |}.

End Theme.

(** ** Listings *)

Section ListingFacts.
Import Backend Facade FacadeRest.

Variable precedes : option Value -> option Value -> bool.

(** Any two values of a column compare one way or the other. *)
Definition total_order : Prop :=
  forall a b, precedes a b = true \/ precedes b a = true.

Lemma by_column_total column ascending :
  total_order -> Total (by_column precedes column ascending).
Proof.
  intros Ht r1 r2. unfold by_column. destruct ascending.
  - apply Ht.
  - destruct (Ht (r1 !! column) (r2 !! column)); [right|left]; assumption.
Qed.

Lemma map_project_all (l : list Row) : map (project AllColumns) l = l.
Proof. induction l as [|r l IH]; [reflexivity|]. cbn. rewrite IH. reflexivity. Qed.

Definition listing (t : string) (fs : list (string * Value))
    (o : option (string * bool)) : Ordered :=
  {| o_query := {| q_table := t; q_verb := VSelect; q_columns := AllColumns;
                   q_filters := fs; q_returning := true; q_single := false |};
     o_order := o |}.

Lemma await_listing t fs o w :
  db_fault w = None ->
  await precedes (listing t fs o) w
  = (Ok {| data := DRows (arrange precedes o
                            (List.filter (matches fs) (table_rows t w)));
           error := None |},
     sent (o_query (listing t fs o)) w).
Proof.
  intros Hq. unfold await, mbind, M_bind, mret, M_ret.
  rewrite (exec_quiet _ _ Hq). unfold apply_verb, answer, commit, listing.
  cbn [o_query o_order q_verb q_filters q_table q_single q_returning q_columns
       error data].
  rewrite map_project_all. reflexivity.
Qed.

Lemma await_faulty o w e :
  db_fault w = Some e ->
  await precedes o w = (Ok {| data := DNull; error := Some e |}, sent (o_query o) w).
Proof.
  intros Hf. unfold await, mbind, M_bind, mret, M_ret.
  rewrite (exec_faulty _ _ _ Hf). reflexivity.
Qed.

Lemma arrange_perm o (rows : list Row) : arrange precedes o rows ≡ₚ rows.
Proof.
  destruct o as [[c a]|]; [apply merge_sort_Permutation|reflexivity].
Qed.

Lemma arrange_sorted c a (rows : list Row) :
  total_order -> Sorted (by_column precedes c a) (arrange precedes (Some (c, a)) rows).
Proof.
  intros Ht. pose proof (by_column_total c a Ht). apply Sorted_merge_sort; assumption.
Qed.

Lemma filter_all_match fs (t : list Row) :
  Forall (fun r => matches fs r = true) (List.filter (matches fs) t).
Proof.
  apply Forall_forall. intros r Hr. apply list_elem_of_In, filter_In in Hr. tauto.
Qed.

Lemma rows_where_all c v (t : list Row) :
  Forall (fun r : Row => r !! c = Some v) (rows_where c v t).
Proof.
  apply Forall_forall. intros r Hr. apply list_elem_of_In, filter_In in Hr as [_ Hr].
  apply matches_one. exact Hr.
Qed.

(** The rows a category filter of [getContentImages] lets through. *)
Definition of_category (category : option ImageCategory) (t : list Row) : list Row :=
  match category with
  | Some c => rows_where "category" (VStr (category_text c)) t
  | None => t
  end.

Lemma filter_no_filters (t : list Row) : List.filter (matches []) t = t.
Proof. induction t as [|r t IH]; [reflexivity|]. cbn. f_equal. exact IH. Qed.

(** X1: [getContentImages] answers with the rows of the wanted category
    and no others (with all rows when no category is given), each as
    often as it is in the table, arranged by [display_order] ascending,
    and writes nothing. *)
Theorem getContentImages_lists category w :
  db_fault w = None ->
  exists rows w',
    getContentImages precedes category w = (Ok (DRows rows), w')
    /\ tables w' = tables w
    /\ rows ≡ₚ of_category category (table_rows "content_images" w)
    /\ (forall c, category = Some c ->
          Forall (fun r : Row => r !! "category" = Some (VStr (category_text c))) rows)
    /\ (total_order -> Sorted (by_column precedes "display_order" true) rows).
Proof.
  intros Hq. unfold getContentImages, mbind, M_bind, mret, M_ret, throw.
  destruct category as [c|].
  - change (from "content_images" |> select AllColumns |> order "display_order" true
            |> and_eq "category" (VStr (category_text c)))
      with (listing "content_images" [("category", VStr (category_text c))]
              (Some ("display_order", true))).
    rewrite (await_listing _ _ _ _ Hq). cbn [error data].
    do 2 eexists. split; [reflexivity|]. split; [reflexivity|].
    split; [apply arrange_perm|]. split; [|apply arrange_sorted].
    intros c' [= <-]. eapply Permutation_Forall.
    + symmetry. apply arrange_perm.
    + apply rows_where_all.
  - change (from "content_images" |> select AllColumns |> order "display_order" true)
      with (listing "content_images" [] (Some ("display_order", true))).
    rewrite (await_listing _ _ _ _ Hq). cbn [error data].
    do 2 eexists. split; [reflexivity|]. split; [reflexivity|].
    rewrite filter_no_filters.
    split; [apply arrange_perm|]. split; [discriminate|apply arrange_sorted].
Qed.

(** X2: [getFeaturedImages] answers with exactly the rows whose
    [is_featured] is true, arranged by [display_order] ascending. *)
Theorem getFeaturedImages_lists w :
  db_fault w = None ->
  exists rows w',
    getFeaturedImages precedes w = (Ok (DRows rows), w')
    /\ tables w' = tables w
    /\ rows ≡ₚ rows_where "is_featured" (VBool true) (table_rows "content_images" w)
    /\ Forall (fun r : Row => r !! "is_featured" = Some (VBool true)) rows
    /\ (total_order -> Sorted (by_column precedes "display_order" true) rows).
Proof.
  intros Hq. unfold getFeaturedImages, mbind, M_bind, mret, M_ret, throw.
  change (from "content_images" |> select AllColumns |> eq "is_featured" (VBool true)
          |> order "display_order" true)
    with (listing "content_images" [("is_featured", VBool true)]
            (Some ("display_order", true))).
  rewrite (await_listing _ _ _ _ Hq). cbn [error data].
  do 2 eexists. split; [reflexivity|]. split; [reflexivity|].
  split; [apply arrange_perm|]. split; [|apply arrange_sorted].
  eapply Permutation_Forall; [symmetry; apply arrange_perm|apply rows_where_all].
Qed.

(** The rows a status filter of [getBookings] lets through. *)
Definition of_status (status : option BookingStatus) (t : list Row) : list Row :=
  match status with
  | Some s => rows_where "status" (VStr (status_text s)) t
  | None => t
  end.

(** X3: [getBookings] answers with the bookings of the wanted status and
    no others (with all of them when no status is given), arranged by
    [created_at] descending: each row is followed by one that does not
    come after it. *)
Theorem getBookings_lists status w :
  db_fault w = None ->
  exists rows w',
    getBookings precedes status w = (Ok (DRows rows), w')
    /\ tables w' = tables w
    /\ rows ≡ₚ of_status status (table_rows "bookings" w)
    /\ (forall s, status = Some s ->
          Forall (fun r : Row => r !! "status" = Some (VStr (status_text s))) rows)
    /\ (total_order ->
        Sorted (fun r1 r2 : Row =>
                  precedes (r2 !! "created_at") (r1 !! "created_at") = true) rows).
Proof.
  intros Hq. unfold getBookings, mbind, M_bind, mret, M_ret, throw.
  destruct status as [s|].
  - change (from "bookings" |> select AllColumns |> order "created_at" false
            |> and_eq "status" (VStr (status_text s)))
      with (listing "bookings" [("status", VStr (status_text s))]
              (Some ("created_at", false))).
    rewrite (await_listing _ _ _ _ Hq). cbn [error data].
    do 2 eexists. split; [reflexivity|]. split; [reflexivity|].
    split; [apply arrange_perm|]. split; [|apply (arrange_sorted "created_at" false)].
    intros s' [= <-]. eapply Permutation_Forall.
    + symmetry. apply arrange_perm.
    + apply rows_where_all.
  - change (from "bookings" |> select AllColumns |> order "created_at" false)
      with (listing "bookings" [] (Some ("created_at", false))).
    rewrite (await_listing _ _ _ _ Hq). cbn [error data].
    do 2 eexists. split; [reflexivity|]. split; [reflexivity|].
    rewrite filter_no_filters.
    split; [apply arrange_perm|].
    split; [discriminate|apply (arrange_sorted "created_at" false)].
Qed.

(** X4: [getMessages] answers with exactly the messages of the booking,
    arranged by [created_at] ascending. *)
Theorem getMessages_lists bookingId w :
  db_fault w = None ->
  exists rows w',
    getMessages precedes bookingId w = (Ok (DRows rows), w')
    /\ tables w' = tables w
    /\ rows ≡ₚ rows_where "booking_id" (VStr bookingId) (table_rows "messages" w)
    /\ Forall (fun r : Row => r !! "booking_id" = Some (VStr bookingId)) rows
    /\ (total_order -> Sorted (by_column precedes "created_at" true) rows).
Proof.
  intros Hq. unfold getMessages, mbind, M_bind, mret, M_ret, throw.
  change (from "messages" |> select AllColumns |> eq "booking_id" (VStr bookingId)
          |> order "created_at" true)
    with (listing "messages" [("booking_id", VStr bookingId)]
            (Some ("created_at", true))).
  rewrite (await_listing _ _ _ _ Hq). cbn [error data].
  do 2 eexists. split; [reflexivity|]. split; [reflexivity|].
  split; [apply arrange_perm|]. split; [|apply arrange_sorted].
  eapply Permutation_Forall; [symmetry; apply arrange_perm|apply rows_where_all].
Qed.

End ListingFacts.

(** ** Failures, inserts and round trips of the facade *)

Section RoundTripFacts.
Import Backend Facade FacadeRest.

Variable precedes : option Value -> option Value -> bool.
Variable toISOString : Z -> string.

(** The call throws [e] and leaves the tables as they were. *)
Definition throws_cleanly {A} (m : M World A) (e : BackendError) (w : World) : Prop :=
  exists w', m w = (Throw e, w') /\ tables w' = tables w.

Ltac fails_with Hf :=
  unfold throws_cleanly, mbind, M_bind, mret, M_ret, throw;
  first [ rewrite (await_faulty _ _ _ _ Hf) | rewrite (exec_faulty _ _ _ Hf) ];
  cbn [error]; eexists; split; reflexivity.

Lemma upsert_single_faulty t row c w e :
  db_fault w = Some e ->
  exists q, upsert_single t row c w = (Ok {| data := DNull; error := Some e |}, sent q w).
Proof.
  intros Hf. unfold upsert_single.
  destruct (row !! c) as [v|]; [destruct (existsb _ _)|];
    rewrite (exec_faulty _ _ _ Hf); eexists; reflexivity.
Qed.

(** X5: when the round trip fails, every function of the facade that
    has no not-found case throws the backend's error as it is and writes
    nothing. *)
Theorem failed_round_trip_is_thrown e w :
  db_fault w = Some e ->
  (forall category, throws_cleanly (getContentImages precedes category) e w)
  /\ throws_cleanly (getFeaturedImages precedes) e w
  /\ (forall image, throws_cleanly (createContentImage image) e w)
  /\ (forall id updates, throws_cleanly (updateContentImage id updates) e w)
  /\ (forall id, throws_cleanly (deleteContentImage id) e w)
  /\ (forall key value, throws_cleanly (setSiteSetting toISOString key value) e w)
  /\ (forall status, throws_cleanly (getBookings precedes status) e w)
  /\ (forall id, throws_cleanly (getBookingById id) e w)
  /\ (forall id status adminNotes,
        throws_cleanly (updateBookingStatus id status adminNotes) e w)
  /\ (forall id updates, throws_cleanly (updateBooking id updates) e w)
  /\ (forall bookingId, throws_cleanly (getMessages precedes bookingId) e w)
  /\ (forall bookingId role content,
        throws_cleanly (sendMessage bookingId role content) e w).
Proof.
  intros Hf. repeat apply conj.
  - intros [c|]; unfold getContentImages; fails_with Hf.
  - unfold getFeaturedImages; fails_with Hf.
  - intros image. unfold createContentImage; fails_with Hf.
  - intros id updates. unfold updateContentImage; fails_with Hf.
  - intros id. unfold deleteContentImage; fails_with Hf.
  - intros key value.
    unfold throws_cleanly, setSiteSetting, mbind, M_bind, mret, M_ret, throw, Date_now.
    destruct (upsert_single_faulty "site_settings"
                (list_to_map [ ("key", VStr key); ("value", VStr value);
                               ("created_at", VStr (toISOString (clock w))) ])
                "key" w e Hf) as [q ->].
    cbn [error]. eexists. split; reflexivity.
  - intros [s|]; unfold getBookings; fails_with Hf.
  - intros id. unfold getBookingById; fails_with Hf.
  - intros id status adminNotes. unfold updateBookingStatus; fails_with Hf.
  - intros id updates. unfold updateBooking; fails_with Hf.
  - intros bookingId. unfold getMessages; fails_with Hf.
  - intros bookingId role content. unfold sendMessage; fails_with Hf.
Qed.

(** An insert that asks for its row back. *)
Lemma exec_insert_single t row w :
  db_fault w = None ->
  exec (from t |> insert row |> returning |> single) w
  = (Ok {| data := DRow (stored_row t row w); error := None |},
     set_tables (<[t := (table_rows t w ++ [stored_row t row w])%list]> (tables w))
       (sent (from t |> insert row |> returning |> single) w)).
Proof.
  intros Hq. rewrite (exec_quiet _ _ Hq).
  unfold apply_verb, answer, commit, from, insert, returning, single, start, stored_row.
  cbn [q_verb q_filters q_table q_single q_returning q_columns error map project].
  reflexivity.
Qed.

(** The world after [row] went into table [t] by query [q]. *)
Definition inserted (t : string) (row : Row) (q : Query) (w : World) : World :=
  set_tables (<[t := (table_rows t w ++ [row])%list]> (tables w)) (sent q w).

Lemma inserted_rows t row q w u :
  table_rows u (inserted t row q w)
  = if decide (t = u) then (table_rows t w ++ [row])%list else table_rows u w.
Proof.
  unfold inserted, table_rows at 1. cbn [tables set_tables].
  destruct (decide (t = u)) as [->|Hne].
  - rewrite lookup_insert_eq. reflexivity.
  - rewrite lookup_insert_ne by assumption. reflexivity.
Qed.

Lemma quiet_after_sent q w : db_faults w = [] -> db_faults (sent q w) = [].
Proof. intros H. unfold sent. cbn. rewrite H. reflexivity. Qed.

Lemma quiet_now w : db_faults w = [] -> db_fault w = None.
Proof. intros H. unfold db_fault. rewrite H. reflexivity. Qed.

Lemma rows_where_app c v (t1 t2 : list Row) :
  rows_where c v (t1 ++ t2) = (rows_where c v t1 ++ rows_where c v t2)%list.
Proof. apply List.filter_app. Qed.

(** X6: [createContentImage] resolves with the row as the backend
    stored it: every field of the image it was given, with the given
    value, and in the other columns what the schema fills in.  That row
    is then the last of the table, and the other tables are untouched.
    On a backend that does not fail, the full listing that follows has
    the stored row among one more row than before. *)
Theorem createContentImage_then_listed image w :
  db_fault w = None ->
  exists saved w',
    createContentImage image w = (Ok (DRow saved), w')
    /\ (forall k v, image !! k = Some v -> saved !! k = Some v)
    /\ (forall k, image !! k = None ->
          saved !! k
          = generated w "content_images" (table_rows "content_images" w) !! k)
    /\ table_rows "content_images" w' = (table_rows "content_images" w ++ [saved])%list
    /\ (forall t, t <> "content_images" -> table_rows t w' = table_rows t w)
    /\ (db_faults w = [] ->
        exists rows w'',
          getContentImages precedes None w' = (Ok (DRows rows), w'')
          /\ saved ∈ rows
          /\ length rows = S (length (table_rows "content_images" w))).
Proof.
  intros Hq. unfold createContentImage, mbind, M_bind, mret, M_ret, throw.
  rewrite (exec_insert_single _ _ _ Hq). cbn [error data].
  exists (stored_row "content_images" image w). eexists. split; [reflexivity|].
  split; [intros k v; apply stored_row_payload|].
  split; [intros k; apply stored_row_filled|].
  fold (inserted "content_images" (stored_row "content_images" image w)
          (from "content_images" |> insert image |> returning |> single) w).
  split; [rewrite inserted_rows; reflexivity|].
  split.
  { intros t Ht. rewrite inserted_rows.
    destruct (decide ("content_images" = t)); [congruence|reflexivity]. }
  intros Hnone.
  set (w' := inserted _ _ _ w).
  assert (Hq' : db_fault w' = None).
  { apply quiet_now. unfold w', inserted. cbn [db_faults set_tables].
    apply quiet_after_sent, Hnone. }
  unfold getContentImages, mbind, M_bind, mret, M_ret, throw.
  change (from "content_images" |> select AllColumns |> order "display_order" true)
    with (listing "content_images" [] (Some ("display_order", true))).
  rewrite (await_listing _ _ _ _ _ Hq'). cbn [error data].
  do 2 eexists. split; [reflexivity|].
  rewrite filter_no_filters. unfold w'. rewrite inserted_rows.
  destruct (decide _) as [_|Hne]; [|congruence].
  split.
  - rewrite arrange_perm. apply elem_of_app. right. apply list_elem_of_singleton.
    reflexivity.
  - rewrite arrange_perm, length_app. cbn. lia.
Qed.

Lemma createContentImage_throws_only_faults image w e w' :
  createContentImage image w = (Throw e, w') -> db_fault w = Some e.
Proof.
  unfold createContentImage, mbind, M_bind, mret, M_ret, throw.
  destruct (db_fault w) as [e0|] eqn:Hf.
  - rewrite (exec_faulty _ _ _ Hf). cbn. congruence.
  - rewrite (exec_insert_single _ _ _ Hf). cbn. discriminate.
Qed.

Lemma message_row_fields bookingId role content :
  message_row bookingId role content !! "booking_id" = Some (VStr bookingId)
  /\ message_row bookingId role content !! "sender_role" = Some (VStr (role_text role))
  /\ message_row bookingId role content !! "content" = Some (VStr content)
  /\ forall k, k <> "booking_id" -> k <> "sender_role" -> k <> "content" ->
       message_row bookingId role content !! k = None.
Proof.
  repeat split. intros k H1 H2 H3. unfold message_row. cbn [list_to_map foldr fst snd].
  rewrite !lookup_insert_ne by congruence. apply lookup_empty.
Qed.

(** X7: on a backend that does not fail, [sendMessage] resolves with the
    message as the backend stored it: the booking id, the sender role
    and the content it was called with, and in every other column what
    the schema fills in.  [getMessages] for the same booking then lists
    that row among one more message than before, while the messages of
    any other booking are the ones there were. *)
Theorem sendMessage_then_listed bookingId role content w :
  db_faults w = [] ->
  exists saved w',
    sendMessage bookingId role content w = (Ok (DRow saved), w')
    /\ saved !! "booking_id" = Some (VStr bookingId)
    /\ saved !! "sender_role" = Some (VStr (role_text role))
    /\ saved !! "content" = Some (VStr content)
    /\ (forall k, k <> "booking_id" -> k <> "sender_role" -> k <> "content" ->
          saved !! k = generated w "messages" (table_rows "messages" w) !! k)
    /\ (exists rows w'',
          getMessages precedes bookingId w' = (Ok (DRows rows), w'')
          /\ saved ∈ rows
          /\ length rows
             = S (length (rows_where "booking_id" (VStr bookingId)
                            (table_rows "messages" w))))
    /\ (forall other, other <> bookingId ->
          rows_where "booking_id" (VStr other) (table_rows "messages" w')
          = rows_where "booking_id" (VStr other) (table_rows "messages" w)).
Proof.
  intros Hnone.
  destruct (message_row_fields bookingId role content) as (Fb & Fs & Fc & Fo).
  set (row := stored_row "messages" (message_row bookingId role content) w).
  unfold sendMessage, mbind, M_bind, mret, M_ret, throw.
  rewrite (exec_insert_single _ _ _ (quiet_now _ Hnone)). cbn [error data].
  exists row. eexists. split; [reflexivity|].
  split; [apply stored_row_payload, Fb|].
  split; [apply stored_row_payload, Fs|].
  split; [apply stored_row_payload, Fc|].
  split; [intros k H1 H2 H3; apply stored_row_filled, Fo; assumption|].
  fold row.
  fold (inserted "messages" row
          (from "messages" |> insert (message_row bookingId role content)
           |> returning |> single) w).
  set (w' := inserted _ _ _ w).
  assert (Hq' : db_fault w' = None).
  { apply quiet_now. unfold w', inserted. cbn [db_faults set_tables].
    apply quiet_after_sent, Hnone. }
  assert (Hrows : table_rows "messages" w' = (table_rows "messages" w ++ [row])%list).
  { unfold w'. rewrite inserted_rows. destruct (decide _); [reflexivity|congruence]. }
  assert (Hmine : row !! "booking_id" = Some (VStr bookingId))
    by apply stored_row_payload, Fb.
  split.
  - unfold getMessages, mbind, M_bind, mret, M_ret, throw.
    change (from "messages" |> select AllColumns |> eq "booking_id" (VStr bookingId)
            |> order "created_at" true)
      with (listing "messages" [("booking_id", VStr bookingId)]
              (Some ("created_at", true))).
    rewrite (await_listing _ _ _ _ _ Hq'). cbn [error data].
    do 2 eexists. split; [reflexivity|].
    fold (rows_where "booking_id" (VStr bookingId) (table_rows "messages" w')).
    rewrite Hrows, rows_where_app.
    assert (Hone : rows_where "booking_id" (VStr bookingId) [row] = [row]).
    { unfold rows_where. cbn [List.filter].
      destruct (matches _ row) eqn:E; [reflexivity|].
      apply matches_one in Hmine. congruence. }
    rewrite Hone. split.
    + rewrite arrange_perm. apply elem_of_app. right.
      apply list_elem_of_singleton. reflexivity.
    + rewrite arrange_perm, length_app. cbn. lia.
  - intros other Hne. rewrite Hrows, rows_where_app.
    assert (Hnot : rows_where "booking_id" (VStr other) [row] = []).
    { unfold rows_where. cbn [List.filter].
      destruct (matches _ row) eqn:E; [|reflexivity].
      apply matches_one in E. congruence. }
    rewrite Hnot. apply app_nil_r.
Qed.

End RoundTripFacts.

(** ** The settings upsert *)

Section SettingsFacts.
Import Backend Facade FacadeRest.

Variable toISOString : Z -> string.

(** The row [setSiteSetting] sends. *)
Definition setting_row (key value : string) (now : Z) : Row :=
  list_to_map [ ("key", VStr key); ("value", VStr value);
                ("created_at", VStr (toISOString now)) ].

(** The table after a patch of the rows with [c = v]. *)
Definition patched (p : Row) (c : string) (v : Value) (t : list Row) : list Row :=
  map (fun r => if matches [(c, v)] r then p ∪ r else r) t.

Lemma existsb_rows_where c v (t : list Row) :
  existsb (matches [(c, v)]) t = false <-> rows_where c v t = [].
Proof.
  unfold rows_where. induction t as [|r t IH]; cbn [existsb List.filter].
  - tauto.
  - destruct (matches [(c, v)] r); cbn [orb]; [split; discriminate|exact IH].
Qed.

(** Rows that were picked are still picked after the patch. *)
Lemma rows_where_patched_same (p : Row) c v (t : list Row) :
  p !! c = Some v ->
  rows_where c v (patched p c v t) = map (fun r => p ∪ r) (rows_where c v t).
Proof.
  intros Hp. unfold rows_where, patched.
  induction t as [|r t IH]; [reflexivity|]. cbn [map List.filter].
  destruct (matches [(c, v)] r) eqn:E.
  - assert (H : matches [(c, v)] (p ∪ r) = true).
    { apply matches_one. apply lookup_union_Some_l. exact Hp. }
    rewrite H. cbn [map]. f_equal. exact IH.
  - rewrite E. exact IH.
Qed.

(** Rows picked by another value are not touched by the patch. *)
Lemma rows_where_patched_other (p : Row) c v v' (t : list Row) :
  p !! c = Some v -> v' <> v ->
  rows_where c v' (patched p c v t) = rows_where c v' t.
Proof.
  intros Hp Hne. unfold rows_where, patched.
  induction t as [|r t IH]; [reflexivity|]. cbn [map List.filter].
  destruct (matches [(c, v)] r) eqn:E.
  - assert (H1 : matches [(c, v')] (p ∪ r) = false).
    { destruct (matches [(c, v')] (p ∪ r)) eqn:E'; [|reflexivity].
      apply matches_one in E'. rewrite (lookup_union_Some_l _ _ _ _ Hp) in E'.
      congruence. }
    assert (H2 : matches [(c, v')] r = false).
    { destruct (matches [(c, v')] r) eqn:E'; [|reflexivity].
      apply matches_one in E'. apply matches_one in E. congruence. }
    rewrite H1, H2. exact IH.
  - destruct (matches [(c, v')] r); [f_equal|]; exact IH.
Qed.

Lemma patched_length p c v (t : list Row) : length (patched p c v t) = length t.
Proof. apply length_map. Qed.

(** One run of [setSiteSetting] on a table with at most one row for the
    key: an insert at the end when the key is new, a patch of its row
    when it is not. *)
Lemma setSiteSetting_run key value w :
  db_fault w = None ->
  length (rows_where "key" (VStr key) (table_rows "site_settings" w)) <= 1 ->
  let t := table_rows "site_settings" w in
  let new := setting_row key value (clock w) in
  exists row w1,
    setSiteSetting toISOString key value w = (Ok (DRow row), w1)
    /\ db_faults w1 = tail (db_faults w)
    /\ (forall u, u <> "site_settings" -> table_rows u w1 = table_rows u w)
    /\ ((rows_where "key" (VStr key) t = []
         /\ row = stored_row "site_settings" new w
         /\ table_rows "site_settings" w1
            = (t ++ [stored_row "site_settings" new w])%list)
        \/ (exists old, rows_where "key" (VStr key) t = [old] /\ row = new ∪ old
            /\ table_rows "site_settings" w1 = patched new "key" (VStr key) t)).
Proof.
  intros Hq Hu t new.
  unfold setSiteSetting, mbind, M_bind, mret, M_ret, throw, Date_now, upsert_single.
  fold (setting_row key value (clock w)). fold new.
  assert (Hk : new !! "key" = Some (VStr key)) by reflexivity.
  rewrite Hk. fold t. fold t in Hu.
  destruct (rows_where "key" (VStr key) t) as [|old [|x l]] eqn:Hr;
    [| |cbn [length] in Hu; lia].
  - apply existsb_rows_where in Hr as He. rewrite He.
    rewrite (exec_insert_single _ _ _ Hq). cbn [error data].
    do 2 eexists. split; [reflexivity|]. split; [reflexivity|].
    fold (inserted "site_settings" (stored_row "site_settings" new w)
            (from "site_settings" |> insert new |> returning |> single) w).
    split.
    + intros u Hne. rewrite inserted_rows.
      destruct (decide _) as [E|_]; [symmetry in E; contradiction|reflexivity].
    + left. repeat split. rewrite inserted_rows.
      destruct (decide _) as [_|E]; [reflexivity|contradiction].
  - assert (He : existsb (matches [("key", VStr key)]) t = true).
    { destruct (existsb _ t) eqn:E; [reflexivity|].
      apply existsb_rows_where in E. congruence. }
    rewrite He. rewrite (exec_update_one _ _ _ _ _ _ Hq Hr). cbn [error data].
    do 2 eexists. split; [reflexivity|]. split; [reflexivity|].
    split.
    + intros u Hne. unfold table_rows at 1. cbn [tables set_tables].
      unfold from. rewrite lookup_insert_ne by congruence. reflexivity.
    + right. exists old. repeat split.
      unfold table_rows at 1. cbn [tables set_tables]. unfold from.
      rewrite lookup_insert_eq. reflexivity.
Qed.

(** X8: on a backend that does not fail and a table with at most one row
    for the key, [setSiteSetting] resolves with a row that holds the key
    and the value, and the [getSiteSetting] of the key that follows
    resolves with the value. *)
Theorem setSiteSetting_then_get key value w :
  db_faults w = [] ->
  length (rows_where "key" (VStr key) (table_rows "site_settings" w)) <= 1 ->
  exists row w1 w2,
    setSiteSetting toISOString key value w = (Ok (DRow row), w1)
    /\ row !! "key" = Some (VStr key)
    /\ row !! "value" = Some (VStr value)
    /\ getSiteSetting key w1 = (Ok (VStr value), w2).
Proof.
  intros Hnone Hu.
  destruct (setSiteSetting_run key value w (quiet_now _ Hnone) Hu)
    as (row & w1 & Hrun & Hf & _ & Hcase).
  assert (Hq1 : db_fault w1 = None).
  { apply quiet_now. rewrite Hf, Hnone. reflexivity. }
  assert (Hnk : setting_row key value (clock w) !! "key" = Some (VStr key))
    by reflexivity.
  assert (Hnv : setting_row key value (clock w) !! "value" = Some (VStr value))
    by reflexivity.
  assert (Hrow : row !! "key" = Some (VStr key) /\ row !! "value" = Some (VStr value)
                 /\ rows_where "key" (VStr key) (table_rows "site_settings" w1) = [row]).
  { destruct Hcase as [(Hr & -> & Ht)|(old & Hr & -> & Ht)]; rewrite Ht.
    - split; [apply stored_row_payload, Hnk|].
      split; [apply stored_row_payload, Hnv|].
      rewrite rows_where_app, Hr. unfold rows_where. cbn [List.filter app].
      apply (stored_row_payload "site_settings" _ w) in Hnk.
      apply matches_one in Hnk. rewrite Hnk. reflexivity.
    - split; [apply lookup_union_Some_l, Hnk|].
      split; [apply lookup_union_Some_l, Hnv|].
      rewrite (rows_where_patched_same _ _ _ _ Hnk), Hr. reflexivity. }
  destruct Hrow as (Hk & Hv & Hone).
  exists row, w1. eexists. split; [exact Hrun|]. split; [exact Hk|].
  split; [exact Hv|].
  unfold getSiteSetting, mbind, M_bind, mret, M_ret, throw.
  rewrite (exec_lookup _ _ _ _ _ Hq1), Hone. cbn [error data].
  rewrite value_or_null_project, Hv. reflexivity.
Qed.

(** X9: [setSiteSetting] leaves exactly one row for its key, leaves the
    rows of every other key and every other table as they were, and
    grows the table by one row only when the key was new.  So a table
    with at most one row per key stays one. *)
Theorem setSiteSetting_keeps_keys_apart key value w :
  db_fault w = None ->
  length (rows_where "key" (VStr key) (table_rows "site_settings" w)) <= 1 ->
  exists row w1,
    setSiteSetting toISOString key value w = (Ok (DRow row), w1)
    /\ rows_where "key" (VStr key) (table_rows "site_settings" w1) = [row]
    /\ (forall v, v <> VStr key ->
          rows_where "key" v (table_rows "site_settings" w1)
          = rows_where "key" v (table_rows "site_settings" w))
    /\ (forall u, u <> "site_settings" -> table_rows u w1 = table_rows u w)
    /\ length (table_rows "site_settings" w1)
       = length (table_rows "site_settings" w)
         + match rows_where "key" (VStr key) (table_rows "site_settings" w) with
           | [] => 1
           | _ => 0
           end
    /\ ((forall v, length (rows_where "key" v (table_rows "site_settings" w)) <= 1) ->
        forall v, length (rows_where "key" v (table_rows "site_settings" w1)) <= 1).
Proof.
  intros Hq Hu.
  destruct (setSiteSetting_run key value w Hq Hu)
    as (row & w1 & Hrun & _ & Hother & Hcase).
  assert (Hnk : setting_row key value (clock w) !! "key" = Some (VStr key))
    by reflexivity.
  exists row, w1. split; [exact Hrun|].
  assert (Hone : rows_where "key" (VStr key) (table_rows "site_settings" w1) = [row]).
  { destruct Hcase as [(Hr & -> & Ht)|(old & Hr & -> & Ht)]; rewrite Ht.
    - rewrite rows_where_app, Hr. unfold rows_where. cbn [List.filter app].
      pose proof (stored_row_payload "site_settings" _ w _ _ Hnk) as Hsk.
      apply matches_one in Hsk. rewrite Hsk. reflexivity.
    - rewrite (rows_where_patched_same _ _ _ _ Hnk), Hr. reflexivity. }
  assert (Hrest : forall v, v <> VStr key ->
            rows_where "key" v (table_rows "site_settings" w1)
            = rows_where "key" v (table_rows "site_settings" w)).
  { intros v Hv. destruct Hcase as [(Hr & -> & Ht)|(old & Hr & -> & Ht)]; rewrite Ht.
    - rewrite rows_where_app. unfold rows_where at 2. cbn [List.filter].
      destruct (matches [("key", v)] _) eqn:E; [|apply app_nil_r].
      apply matches_one in E.
      rewrite (stored_row_payload "site_settings" _ w _ _ Hnk) in E. congruence.
    - apply (rows_where_patched_other _ _ _ _ _ Hnk Hv). }
  split; [exact Hone|]. split; [exact Hrest|]. split; [exact Hother|]. split.
  - destruct Hcase as [(Hr & _ & Ht)|(old & Hr & _ & Ht)]; rewrite Ht, Hr.
    + rewrite length_app. reflexivity.
    + rewrite patched_length. lia.
  - intros Hall v. destruct (decide (v = VStr key)) as [->|Hv].
    + rewrite Hone. reflexivity.
    + rewrite (Hrest v Hv). apply Hall.
Qed.

End SettingsFacts.

(** ** Deletes and updates *)

Section MutationFacts.
Import Backend Facade FacadeRest.

Lemma filter_out_none {A} (f : A -> bool) (l : list A) :
  List.filter f (List.filter (fun x => negb (f x)) l) = [].
Proof.
  induction l as [|x l IH]; [reflexivity|]. cbn [List.filter].
  destruct (f x) eqn:E; cbn [negb List.filter]; [exact IH|].
  rewrite E. exact IH.
Qed.

(** X10: [deleteContentImage] takes away the rows with the id, all of
    them and nothing else: the rows left are the other ones in their
    order, no row has the id any more, and the other tables are
    untouched.  After it an update of the same id throws the
    [.single()] error, and a second delete changes nothing. *)
Theorem deleteContentImage_removes id w :
  db_faults w = [] ->
  exists w',
    deleteContentImage id w = (Ok tt, w')
    /\ table_rows "content_images" w'
       = List.filter (fun r : Row => negb (bool_decide (r !! "id" = Some (VStr id))))
           (table_rows "content_images" w)
    /\ no_row "id" (VStr id) (table_rows "content_images" w')
    /\ (forall u, u <> "content_images" -> table_rows u w' = table_rows u w)
    /\ (forall updates, exists w'',
          updateContentImage id updates w' = (Throw pgrst116, w''))
    /\ (exists w'',
          deleteContentImage id w' = (Ok tt, w'')
          /\ forall u, table_rows u w'' = table_rows u w').
Proof.
  intros Hnone.
  unfold deleteContentImage at 1. unfold mbind, M_bind, mret, M_ret, throw.
  rewrite (exec_quiet _ _ (quiet_now _ Hnone)).
  unfold apply_verb, answer, commit, from, delete_, eq, start.
  cbn [q_verb q_filters q_table q_single q_returning q_columns app error].
  eexists. split; [reflexivity|].
  set (w' := set_tables _ _).
  assert (Ht : table_rows "content_images" w'
               = List.filter (fun r : Row => negb (matches [("id", VStr id)] r))
                   (table_rows "content_images" w)).
  { unfold w', table_rows at 1. cbn [tables set_tables].
    rewrite lookup_insert_eq. reflexivity. }
  assert (Hgone : no_row "id" (VStr id) (table_rows "content_images" w')).
  { apply no_row_filter. rewrite Ht. apply filter_out_none. }
  assert (Hq' : db_fault w' = None).
  { apply quiet_now. unfold w'. cbn. rewrite Hnone. reflexivity. }
  split.
  { rewrite Ht. apply filter_ext. intros r. unfold matches. cbn [forallb fst snd].
    rewrite andb_true_r. reflexivity. }
  split; [exact Hgone|]. split.
  { intros u Hne. unfold w', table_rows at 1. cbn [tables set_tables].
    rewrite lookup_insert_ne by congruence. reflexivity. }
  split.
  - intros updates. unfold updateContentImage, mbind, M_bind, mret, M_ret, throw.
    rewrite (exec_update_absent _ _ _ _ _ Hq' Hgone). cbn [error].
    eexists. reflexivity.
  - unfold deleteContentImage, mbind, M_bind, mret, M_ret, throw.
    rewrite (delete_absent_rows _ _ _ Hq' Hgone). cbn [error].
    eexists. split; [reflexivity|]. intros u. apply table_rows_restored.
Qed.

(** X11: [updateBooking] on the id of one row resolves with that row
    under the patch: every field the patch names holds the patch's
    value, whichever field it is, and every other field is as before.
    The table keeps its length, and the rows of other ids stay where
    they are. *)
Theorem updateBooking_patches_one_row id (updates : Row) w (row : Row) :
  db_fault w = None ->
  rows_where "id" (VStr id) (table_rows "bookings" w) = [row] ->
  exists w' (row' : Row),
    updateBooking id updates w = (Ok (DRow row'), w')
    /\ (forall k v, updates !! k = Some v -> row' !! k = Some v)
    /\ (forall k, updates !! k = None -> row' !! k = row !! k)
    /\ length (table_rows "bookings" w') = length (table_rows "bookings" w)
    /\ (forall i (r : Row),
          table_rows "bookings" w !! i = Some r ->
          r !! "id" <> Some (VStr id) ->
          table_rows "bookings" w' !! i = Some r)
    /\ (forall i,
          table_rows "bookings" w !! i = Some row ->
          table_rows "bookings" w' !! i = Some row')
    /\ (forall u, u <> "bookings" -> table_rows u w' = table_rows u w).
Proof.
  intros Hq Hr. unfold updateBooking, mbind, M_bind, mret, M_ret, throw.
  rewrite (exec_update_one _ _ _ _ _ _ Hq Hr). cbn [error data].
  eexists. exists (updates ∪ row). split; [reflexivity|].
  set (w' := set_tables _ _).
  assert (Ht : table_rows "bookings" w'
               = map (fun r : Row => if matches [("id", VStr id)] r then updates ∪ r else r)
                   (table_rows "bookings" w)).
  { unfold w', table_rows at 1, from. cbn [tables set_tables].
    rewrite lookup_insert_eq. reflexivity. }
  assert (Hrow : matches [("id", VStr id)] row = true).
  { assert (Hin : In row (rows_where "id" (VStr id) (table_rows "bookings" w)))
      by (rewrite Hr; left; reflexivity).
    apply filter_In in Hin. tauto. }
  split; [intros k v Hk; apply lookup_union_Some_l, Hk|].
  split; [intros k Hk; apply lookup_union_r, Hk|].
  split; [rewrite Ht; apply length_map|].
  split.
  { intros i r Hi Hne. rewrite Ht, list_lookup_fmap, Hi.
    assert (E : matches [("id", VStr id)] r = false).
    { destruct (matches [("id", VStr id)] r) eqn:E; [|reflexivity].
      apply matches_one in E. contradiction. }
    cbn [fmap option_fmap option_map]. rewrite E. reflexivity. }
  split.
  { intros i Hi. rewrite Ht, list_lookup_fmap, Hi.
    cbn [fmap option_fmap option_map]. rewrite Hrow. reflexivity. }
  intros u Hne. unfold w', table_rows at 1, from. cbn [tables set_tables].
  rewrite lookup_insert_ne by congruence. reflexivity.
Qed.

(** X12: [updateBookingStatus] with notes supplied, the empty string
    included, stores both the status and the notes on the row of the id
    and leaves its other fields as they were. *)
Theorem updateBookingStatus_with_notes id status notes w (row : Row) :
  db_fault w = None ->
  rows_where "id" (VStr id) (table_rows "bookings" w) = [row] ->
  exists w' (row' : Row),
    updateBookingStatus id status (Some notes) w = (Ok (DRow row'), w')
    /\ rows_where "id" (VStr id) (table_rows "bookings" w') = [row']
    /\ row' !! "status" = Some (VStr (status_text status))
    /\ row' !! "admin_notes" = Some (VStr notes)
    /\ forall k, k <> "status" -> k <> "admin_notes" -> row' !! k = row !! k.
Proof.
  intros Hq Hr. unfold updateBookingStatus, mbind, M_bind, mret, M_ret, throw.
  rewrite (exec_update_one _ _ _ _ _ _ Hq Hr). cbn [error data].
  eexists. exists (status_updates status (Some notes) ∪ row).
  split; [reflexivity|].
  assert (Hs : status_updates status (Some notes) !! "status"
               = Some (VStr (status_text status))).
  { unfold status_updates. rewrite lookup_insert_ne by discriminate.
    apply lookup_singleton_eq. }
  assert (Hn : status_updates status (Some notes) !! "admin_notes" = Some (VStr notes)).
  { unfold status_updates. apply lookup_insert_eq. }
  assert (Hk : forall k, k <> "status" -> k <> "admin_notes" ->
                 status_updates status (Some notes) !! k = None).
  { intros k H1 H2. unfold status_updates.
    rewrite lookup_insert_ne by congruence. apply lookup_singleton_ne. congruence. }
  split.
  { unfold table_rows at 1, from. cbn [tables set_tables].
    rewrite lookup_insert_eq. cbn [default from_option Datatypes.id].
    unfold rows_where. rewrite filter_patched.
    - unfold rows_where in Hr. rewrite Hr. reflexivity.
    - intros r. unfold matches. cbn [forallb fst snd].
      rewrite lookup_union_r by (apply Hk; discriminate). reflexivity. }
  split; [apply lookup_union_Some_l, Hs|].
  split; [apply lookup_union_Some_l, Hn|].
  intros k H1 H2. apply lookup_union_r, Hk; assumption.
Qed.

End MutationFacts.

(** ** Uploads through the facade *)

Section UploadFacts.
Import Backend Facade.


(** X14: when the upload is answered with an error, or rejects,
    [uploadImage] throws that error after its one call to the object
    store: nothing is stored and no public URL is handed out. *)
Theorem uploadImage_failure bucket file path w e :
  storage_fault w = Refused e \/ storage_fault w = Crashed e ->
  exists w' key,
    uploadImage bucket file path w = (Throw e, w')
    /\ objects w' = objects w
    /\ tables w' = tables w
    /\ calls w' = (calls w ++ [CallUpload bucket key])%list.
Proof.
  intros Hs.
  unfold uploadImage, mbind, M_bind, mret, M_ret, throw, storage_upload,
    getPublicUrl, Date_now, storage_fault in *.
  destruct (JS.truthy path); cbn [storage_faults log calls objects endpoint];
    (destruct (storage_faults w) as [|[|e'|e'] rest];
     [destruct Hs; discriminate|destruct Hs; discriminate| |]);
    (assert (e' = e) as -> by (destruct Hs; congruence));
    do 2 eexists; repeat split.
Qed.

End UploadFacts.

(** ** More on the gate *)

Section GateMoreFacts.
Import Middleware.

Context {AuthClient User Session : Type}.
Variable session_user : Session -> User.
Variable auth_setSession : string -> string -> AuthClient -> AuthClient.
Variable auth_getSession : AuthClient -> option Session * AuthClient.

Local Abbreviation the_gate := (onRequest session_user auth_setSession auth_getSession).

Lemma prefix_split p s : String.prefix p s = true <-> exists t, s = (p ++ t)%string.
Proof.
  revert s. induction p as [|c p IH]; intros s.
  - split; [intros _; exists s; reflexivity|].
    intros _. destruct s; reflexivity.
  - destruct s as [|d s]; cbn [String.prefix].
    + split; [discriminate|intros [t Ht]; discriminate Ht].
    + destruct (ascii_dec c d) as [->|Hne].
      * rewrite IH. split; intros [t Ht]; exists t.
        -- cbn [append]. rewrite Ht. reflexivity.
        -- cbn [append] in Ht. injection Ht as Ht. exact Ht.
      * split; [discriminate|]. intros [t Ht]. cbn [append] in Ht.
        injection Ht as Hc _. symmetry in Hc. contradiction.
Qed.

Lemma append_cancel (p s t : string) : (p ++ s = p ++ t)%string -> s = t.
Proof. induction p as [|c p IH]; cbn [append]; [auto|]. intros [= H]. auto. Qed.

(** X15: the gated paths are exactly the paths [/admin] followed by
    anything but [/login]: [/admin] itself, everything below it other
    than the login page, and also paths such as [/administrator] or
    [/admin/login/] that merely start with the same characters. *)
Theorem protected_paths (req : Request) :
  protected req = true
  <-> exists rest, pathname req = ("/admin" ++ rest)%string /\ rest <> "/login".
Proof.
  rewrite protected_spec, prefix_split. split.
  - intros [[rest Hr] Hne]. exists rest. split; [exact Hr|].
    intros ->. apply Hne. exact Hr.
  - intros (rest & Hr & Hne). split; [exists rest; exact Hr|].
    rewrite Hr. intros H.
    apply (append_cancel "/admin" rest "/login") in H. contradiction.
Qed.

(** X16: on a path that is not gated, the login page included, the gate
    never redirects and never asks for the session: after the cookie
    step it calls [next] at once, [locals] are the ones it was given
    even when the client holds a session, and the client is the one the
    cookie step left. *)
Theorem ungated_passes (req : Request) (g : Gate AuthClient User Session) :
  protected req = false ->
  (the_gate req g).1 = Ok Rendered
  /\ locals (the_gate req g).2 = locals g
  /\ auth (the_gate req g).2 = hydrated auth_setSession req (auth g)
  /\ trace (the_gate req g).2
     = (trace g ++ hydration req ++ [EvNext (locals g)])%list
  /\ forallb (fun e => match e with EvGetSession | EvRedirect _ => false | _ => true end)
       (hydration req ++ [EvNext (locals g)]) = true.
Proof.
  intros Hp. rewrite gate_run, Hp. cbn [fst snd locals auth trace].
  repeat split. unfold hydration. destruct (_ && _)%bool; reflexivity.
Qed.

(** A request without a usable pair of token cookies. *)
Definition no_tokens (req : Request) : Prop :=
  (JS.truthy (cookies req !! "sb-access-token")
   && JS.truthy (cookies req !! "sb-refresh-token"))%bool = false.

(** The next request arrives at the same client with [locals] of its own. *)
Definition next_request (g : Gate AuthClient User Session)
  : Gate AuthClient User Session :=
  {| auth := auth g;
     locals := {| locals_user := None; locals_session := None |};
     trace := trace g |}.

(** X17: the client is shared by all requests and the gate never resets
    it.  A request without token cookies is judged on the session the
    client already holds; after a request on an ungated path that
    carried tokens, that is the session those tokens put there. *)
Theorem session_outlives_request (req1 req2 : Request)
    (g : Gate AuthClient User Session) a r :
  cookies req1 !! "sb-access-token" = Some a -> a <> "" ->
  cookies req1 !! "sb-refresh-token" = Some r -> r <> "" ->
  protected req1 = false ->
  no_tokens req2 ->
  ((the_gate req2 (next_request (the_gate req1 g).2)).1
     = Ok (Redirected "/admin/login")
   <-> protected req2 = true
       /\ (auth_getSession (auth_setSession a r (auth g))).1 = None)
  /\ forallb (fun e => negb (is_set_session e))
       (drop (length (trace (the_gate req1 g).2))
          (trace (the_gate req2 (next_request (the_gate req1 g).2)).2)) = true.
Proof.
  intros Ha Hane Hr Hrne Hp1 Hno.
  destruct (hydration_of_tokens (User:=User) (Session:=Session)
              auth_setSession req1 a r Ha Hane Hr Hrne) as [_ Hcl].
  assert (Hauth : auth (next_request (the_gate req1 g).2)
                  = auth_setSession a r (auth g)).
  { cbn [next_request auth]. rewrite gate_run, Hp1. cbn [snd auth]. apply Hcl. }
  assert (Hh2 : hydration (User:=User) (Session:=Session) req2 = []).
  { unfold hydration. unfold no_tokens in Hno. rewrite Hno. reflexivity. }
  assert (Hc2 : forall c, hydrated auth_setSession req2 c = c).
  { intros c. unfold hydrated. unfold no_tokens in Hno. rewrite Hno. reflexivity. }
  rewrite (gate_run _ _ _ req2). rewrite Hh2, Hc2, Hauth.
  cbn [next_request trace].
  destruct (protected req2);
    [destruct (auth_getSession (auth_setSession a r (auth g))) as [[s0|] c0]|];
    cbn [fst snd trace app]; rewrite drop_app_length; cbn [forallb is_set_session negb];
    (split; [split; [try discriminate; intros _; split; reflexivity
                    |try reflexivity; intros [H1 H2]; discriminate]
            |reflexivity]).
Qed.

End GateMoreFacts.

(** ** Wizard navigation *)

Section StepsFacts.
Import Steps.

(** The wizard shows its current step and nothing else. *)
Definition at_step (n : Nav) : Prop :=
  (1 <= currentStep n <= 4)%Z
  /\ forall k, step_exists k = true -> (k ∈ hidden n <-> k <> currentStep n).

Lemma step_exists_spec k : step_exists k = true <-> (1 <= k <= 4)%Z.
Proof. unfold step_exists. rewrite andb_true_iff, !Z.leb_le. tauto. Qed.

Lemma shown_spec n k :
  shown n k = true <-> step_exists k = true /\ k ∉ hidden n.
Proof.
  unfold shown. rewrite andb_true_iff, negb_true_iff, bool_decide_eq_false. tauto.
Qed.

Lemma at_step_shown n k : at_step n -> (shown n k = true <-> k = currentStep n).
Proof.
  intros [Hb Hh]. rewrite shown_spec. split.
  - intros [He Hn]. destruct (decide (k = currentStep n)) as [|Hne]; [assumption|].
    exfalso. apply Hn, Hh; assumption.
  - intros ->. assert (He : step_exists (currentStep n) = true)
      by (apply step_exists_spec; lia).
    split; [exact He|]. intros Hin. apply (Hh _ He) in Hin. congruence.
Qed.

Lemma loaded_at_step : at_step loaded.
Proof.
  split; [cbn; lia|]. intros k Hk. apply step_exists_spec in Hk.
  cbn [loaded hidden currentStep]. rewrite !elem_of_union, !elem_of_singleton. lia.
Qed.

Lemma moved_at_step n s :
  at_step n -> (1 <= s <= 4)%Z ->
  at_step {| currentStep := s;
             hidden := remove_hidden s (add_hidden (currentStep n) (hidden n)) |}.
Proof.
  intros [Hb Hh] Hs. split; [exact Hs|]. cbn [currentStep hidden].
  intros k Hk. unfold remove_hidden, add_hidden.
  assert (H1 : step_exists s = true) by (apply step_exists_spec; lia).
  assert (H2 : step_exists (currentStep n) = true) by (apply step_exists_spec; lia).
  rewrite H1, H2. rewrite elem_of_difference, elem_of_union, !elem_of_singleton.
  specialize (Hh k Hk). destruct (decide (k = currentStep n)); tauto.
Qed.

Lemma handle_at_step n c : at_step n -> clickable n c = true -> at_step (handle n c).
Proof.
  intros Hn Hc. unfold clickable in Hc. apply andb_true_iff in Hc as [Hm Hs].
  apply (at_step_shown _ _ Hn) in Hs.
  destruct c as [k|k]; cbn [in_markup step_of] in *;
    apply andb_true_iff in Hm as [Hlo Hhi];
    apply Z.leb_le in Hlo; apply Z.leb_le in Hhi;
    cbn [handle]; unfold click_next, click_prev;
    apply moved_at_step; [assumption|lia|assumption|lia].
Qed.

Lemma clicks_at_step cs : forall n n', at_step n -> clicks cs n = Some n' -> at_step n'.
Proof.
  induction cs as [|c cs IH]; intros n n' Hn; cbn [clicks].
  - intros [= <-]. exact Hn.
  - destruct (clickable n c) eqn:Hc; [|discriminate].
    apply IH, handle_at_step; assumption.
Qed.

(** X18: on the page as loaded, whatever buttons the user clicks among
    the ones shown, [currentStep] stays between 1 and 4 and the step
    shown is that one and no other.  That rests on the markup, not on
    the listeners: run on step 4 the [.btn-next] listener leaves no step
    shown, and so does the [.btn-prev] listener on step 1. *)
Theorem wizard_navigation cs n :
  clicks cs loaded = Some n ->
  (1 <= currentStep n <= 4)%Z
  /\ (forall k, shown n k = true <-> k = currentStep n)
  /\ (currentStep n = 4%Z ->
      currentStep (click_next n) = 5%Z /\ forall k, shown (click_next n) k = false)
  /\ (currentStep n = 1%Z ->
      currentStep (click_prev n) = 0%Z /\ forall k, shown (click_prev n) k = false).
Proof.
  intros Hrun. pose proof (clicks_at_step cs loaded n loaded_at_step Hrun) as Hn.
  split; [apply Hn|]. split; [intros k; apply at_step_shown, Hn|].
  destruct Hn as [Hb Hh].
  assert (Hout : forall s, step_exists s = false ->
            forall k, shown {| currentStep := s;
                               hidden := remove_hidden s
                                           (add_hidden (currentStep n) (hidden n)) |} k
                      = false).
  { intros s Hs k. destruct (shown _ k) eqn:E; [|reflexivity].
    apply shown_spec in E as [Hk Hnot]. cbn [hidden] in Hnot.
    unfold remove_hidden, add_hidden in Hnot. rewrite Hs in Hnot.
    assert (H2 : step_exists (currentStep n) = true) by (apply step_exists_spec; lia).
    rewrite H2 in Hnot. exfalso. apply Hnot.
    rewrite elem_of_union, elem_of_singleton.
    destruct (decide (k = currentStep n)); [left; assumption|right].
    apply Hh; assumption. }
  split; intros Hc; unfold click_next, click_prev; cbn [currentStep];
    (split; [lia|]); apply Hout; rewrite Hc; reflexivity.
Qed.

End StepsFacts.

(** ** Wizard submission: what the user sees, what stays behind *)

Section SubmitFacts.
Import Backend Wizard.

Lemma exec_frame q w :
  objects (exec q w).2 = objects w
  /\ storage_faults (exec q w).2 = storage_faults w.
Proof.
  destruct (db_fault w) as [e|] eqn:Hf.
  - rewrite (exec_faulty _ _ _ Hf). split; reflexivity.
  - rewrite (exec_quiet _ _ Hf).
    cbn zeta. destruct (apply_verb _ q _) as [t' rows].
    destruct (error _); [split; reflexivity|].
    unfold commit. destruct (q_verb q); split; reflexivity.
Qed.

(** The objects left in the bucket by the uploads that were stored. *)
Fixpoint stored_objects (now : Z) (files : list File) (outs : list StorageOutcome)
  : list StoredObject :=
  match files, outs with
  | file :: files', o :: outs' =>
      if stored o
      then {| obj_bucket := bucket;
              obj_path := JS.show now ++ "-" ++ strip (file_name file);
              obj_file := file |} :: stored_objects now files' outs'
      else stored_objects now files' outs'
  | _, _ => []
  end.

Lemma after_upload_objects file w :
  objects (after_upload file w)
  = (objects w ++
     if stored (storage_fault w)
     then [{| obj_bucket := bucket;
              obj_path := JS.show (clock w) ++ "-" ++ strip (file_name file);
              obj_file := file |}]
     else [])%list.
Proof.
  unfold after_upload, storage_fault.
  destruct (storage_faults w) as [|[|e|e] sf]; cbn; rewrite ?app_nil_r; reflexivity.
Qed.

Lemma upload_each_objects (files : list File) : forall urls w,
  (exists extra, objects (upload_each files urls w).2 = (objects w ++ extra)%list)
  /\ (existsb crashed (outcomes (length files) (storage_faults w)) = false ->
      objects (upload_each files urls w).2
      = (objects w ++ stored_objects (clock w) files
                        (outcomes (length files) (storage_faults w)))%list).
Proof.
  induction files as [|file rest IH]; intros urls w.
  - cbn. split; [exists []|intros _]; rewrite app_nil_r; reflexivity.
  - cbn [length]. rewrite upload_each_cons, outcomes_tail.
    destruct (after_upload_frame file w) as (_ & _ & Fc & _ & Fs & _).
    pose proof (after_upload_objects file w) as Fo. unfold storage_fault in Fo.
    assert (Hstep : forall urls',
      (exists extra, objects (upload_each rest urls' (after_upload file w)).2
                     = (objects (after_upload file w) ++ extra)%list)
      /\ (existsb crashed (outcomes (length rest) (tail (storage_faults w))) = false ->
          objects (upload_each rest urls' (after_upload file w)).2
          = (objects (after_upload file w)
             ++ stored_objects (clock w) rest
                  (outcomes (length rest) (tail (storage_faults w))))%list)).
    { intros urls'. destruct (IH urls' (after_upload file w)) as [H1 H2].
      rewrite Fs, Fc in H2. split; assumption. }
    destruct (storage_faults w) as [|[|e|e] sf];
      cbn [existsb crashed orb stored_objects stored tail] in *.
    + destruct (Hstep (urls ++ [url_of (endpoint w) (clock w) file])%list)
        as [[extra H1] H2].
      split; [eexists; rewrite H1, Fo, <- app_assoc; reflexivity|].
      intros Hx. rewrite (H2 Hx), Fo, <- app_assoc. reflexivity.
    + destruct (Hstep (urls ++ [url_of (endpoint w) (clock w) file])%list)
        as [[extra H1] H2].
      split; [eexists; rewrite H1, Fo, <- app_assoc; reflexivity|].
      intros Hx. rewrite (H2 Hx), Fo, <- app_assoc. reflexivity.
    + destruct (Hstep urls) as [[extra H1] H2].
      rewrite Fo, app_nil_r in H1, H2.
      split; [eexists; exact H1|exact H2].
    + split; [|discriminate]. cbn [snd]. rewrite Fo. eexists. reflexivity.
Qed.

(** The world and the page a submission ends in, from the run of its
    uploads. *)
Lemma submit_run formData files p :
  submit formData (Some files) p
  = match upload_each files [] (world p) with
    | (Throw e, w') => (Throw e, {| world := w'; ui := show_loading (ui p) |})
    | (Ok urls, w') =>
        let q := from "bookings" |> insert (booking_row formData urls) in
        (Ok tt,
         {| world := (exec q w').2;
            ui := match db_fault w' with
                  | None => show_success (hide_loading (show_loading (ui p)))
                  | Some e => alert ("Error submitting booking: " ++ message e)
                                (hide_loading (show_loading (ui p)))
                  end |})
    end.
Proof.
  unfold submit, mbind, M_bind, mret, M_ret, dom, lift. cbn [world ui].
  destruct (upload_each files [] (world p)) as [[urls|e] w']; [|reflexivity].
  cbn [world ui]. destruct (db_fault w') as [e|] eqn:Hf.
  - rewrite (exec_faulty _ _ _ Hf). reflexivity.
  - rewrite (exec_quiet _ _ Hf).
    unfold apply_verb, answer, commit, from, insert, start.
    cbn [q_verb q_filters q_table q_single q_returning q_columns error].
    reflexivity.
Qed.

(** X19: what the user is left with after a submission.  When an upload
    rejects, the handler rejects with it: the "Submitting..." line stays
    on, and there is no alert and no success message.  When the insert
    goes through, the form is hidden, the success message is shown and
    the "Submitting..." line is off.  When the insert is answered with an
    error, the handler still resolves: the form stays, the
    "Submitting..." line is off, and one alert carries the backend's
    message after "Error submitting booking: ". *)
Theorem submit_feedback formData files p :
  let w := world p in
  let outs := outcomes (length files) (storage_faults w) in
  (existsb crashed outs = true ->
     exists e p',
       submit formData (Some files) p = (Throw e, p')
       /\ loading_hidden (ui p') = false
       /\ form_hidden (ui p') = form_hidden (ui p)
       /\ success_hidden (ui p') = success_hidden (ui p)
       /\ alerts (ui p') = alerts (ui p))
  /\ (existsb crashed outs = false -> db_fault w = None ->
     exists p',
       submit formData (Some files) p = (Ok tt, p')
       /\ form_hidden (ui p') = true
       /\ success_hidden (ui p') = false
       /\ loading_hidden (ui p') = true
       /\ alerts (ui p') = alerts (ui p))
  /\ (existsb crashed outs = false -> forall e, db_fault w = Some e ->
     exists p',
       submit formData (Some files) p = (Ok tt, p')
       /\ form_hidden (ui p') = form_hidden (ui p)
       /\ success_hidden (ui p') = success_hidden (ui p)
       /\ loading_hidden (ui p') = true
       /\ alerts (ui p')
          = (alerts (ui p) ++ [("Error submitting booking: " ++ message e)%string])%list
       /\ tables (world p') = tables w).
Proof.
  intros w outs. rewrite submit_run.
  destruct (upload_each_run files [] w)
    as (w' & Ht & Hf & _ & _ & _ & Hrun).
  fold outs in Hrun. fold w.
  assert (Hfault : db_fault w' = db_fault w) by (unfold db_fault; rewrite Hf; reflexivity).
  split; [|split].
  - intros Hx. rewrite Hx in Hrun. destruct Hrun as [e ->].
    do 2 eexists. split; [reflexivity|]. repeat split.
  - intros Hx Hq. rewrite Hx in Hrun. rewrite Hrun. cbn zeta.
    rewrite Hfault, Hq. eexists. split; [reflexivity|]. repeat split.
  - intros Hx e He. rewrite Hx in Hrun. rewrite Hrun. cbn zeta.
    rewrite Hfault, He. eexists. split; [reflexivity|].
    cbn [ui world alert hide_loading show_loading form_hidden success_hidden
         loading_hidden alerts].
    repeat split.
    rewrite <- Hfault in He. rewrite (exec_faulty _ _ _ He). cbn. exact Ht.
Qed.


(** X21: with no file selected, whether the file list is null or empty,
    the handler makes one call to the backend, the insert of a booking
    without reference photos, and leaves the bucket alone. *)
Theorem submit_without_files formData files p :
  files = None \/ files = Some [] ->
  (submit formData files p).1 = Ok tt
  /\ issued (world p) (world (submit formData files p).2)
     = [CallDb (from "bookings" |> insert (booking_row formData []))]
  /\ booking_row formData [] !! "reference_photos" = Some (VList [])
  /\ objects (world (submit formData files p).2) = objects (world p).
Proof.
  intros Hfiles.
  assert (Hsame : submit formData files p = submit formData (Some []) p).
  { destruct Hfiles as [->| ->]; reflexivity. }
  rewrite Hsame, submit_run. cbn [upload_each mret M_ret fst snd world].
  split; [reflexivity|]. split.
  - apply issued_app.
    destruct (db_fault (world p)) as [e|] eqn:Hf.
    + rewrite (exec_faulty _ _ _ Hf). reflexivity.
    + rewrite (exec_quiet _ _ Hf).
      cbn zeta. destruct (apply_verb _ _ _) as [t' rows].
      destruct (error _); [reflexivity|].
      unfold commit. destruct (q_verb _); reflexivity.
  - split; [reflexivity|]. apply exec_frame.
Qed.

End SubmitFacts.

(** ** Theme *)

Section ThemeFacts.
Import Theme.

(** X22: the toggle stores what it shows, so the choice survives a
    reload whatever the system preference is by then, and two clicks
    bring the page back to where it was.  Without a stored value, or with
    an empty one, a load follows the system preference; with any other
    stored value the page is dark exactly when that value is [dark]. *)
Theorem theme_choice_survives_reload (d : Doc) :
  (forall system_dark,
      dark (reload system_dark (handleToggleClick d)) = dark (handleToggleClick d)
      /\ stored (reload system_dark (handleToggleClick d))
         = stored (handleToggleClick d))
  /\ dark (handleToggleClick (handleToggleClick d)) = dark d
  /\ (stored d = None \/ stored d = Some "" -> dark (init d) = prefers_dark d)
  /\ (forall s, stored d = Some s -> s <> "" -> dark (init d) = String.eqb s "dark").
Proof.
  split; [|split; [|split]].
  - intros system_dark. unfold reload, init, theme, handleToggleClick.
    cbn [stored dark prefers_dark]. destruct (dark d); split; reflexivity.
  - cbn. apply negb_involutive.
  - intros [H|H]; unfold init, theme; rewrite H; cbn;
      destruct (prefers_dark d); reflexivity.
  - intros s Hs Hne. unfold init, theme. rewrite Hs. cbn.
    destruct (String.eqb_spec s ""); [contradiction|reflexivity].
Qed.

Lemma theme_choice_survives_reload_witness :
  dark (init {| dark := false; stored := Some "light"; prefers_dark := true |}) = false
  /\ dark (init {| dark := false; stored := None; prefers_dark := true |}) = true.
Proof.
  destruct (theme_choice_survives_reload
              {| dark := false; stored := Some "light"; prefers_dark := true |})
    as (_ & _ & _ & Hs).
  destruct (theme_choice_survives_reload
              {| dark := false; stored := None; prefers_dark := true |})
    as (_ & _ & Hn & _).
  split.
  - rewrite (Hs "light" eq_refl); [reflexivity|discriminate].
  - rewrite Hn; [reflexivity|left; reflexivity].
Defined.

End ThemeFacts.

(** ** Realtime deliveries *)

Section DeliveryFacts.
Import Realtime.

Context {App : Type}.

Implicit Types (c : Client App) (ch : Channel App) (b : Binding App).

(** Identities in use are below the next fresh one. *)
Definition fresh_ok c : Prop :=
  Forall (fun ch => ch_ref ch < next_ref c) (channels c).

(** The handler invocations an insert causes on one channel, and on a
    list of channels. *)
Definition news_of (table : string) (m : Message) ch : list (nat * Message) :=
  if ch_joined ch
  then map (fun _ => (ch_ref ch, m)) (List.filter (listens table m) (ch_bindings ch))
  else [].

Definition news (table : string) (m : Message) (chs : list (Channel App))
  : list (nat * Message) :=
  flat_map (news_of table m) chs.

Lemma notify_fold_delivered table m chs : forall c,
  delivered (fold_left (notify_channel table m) chs c)
  = (delivered c ++ news table m chs)%list.
Proof.
  induction chs as [|ch chs IH]; intros c; cbn [fold_left news flat_map].
  - rewrite app_nil_r. reflexivity.
  - rewrite IH. fold (news table m chs). rewrite app_assoc. f_equal.
    unfold notify_channel, news_of. destruct (ch_joined ch).
    + apply (invoke_fold (ch_ref ch) m _ c).
    + rewrite app_nil_r. reflexivity.
Qed.

Lemma notify_delivered table m c :
  delivered (notify table m c) = (delivered c ++ news table m (channels c))%list.
Proof. apply notify_fold_delivered. Qed.

Definition to_ref (h : nat) (ds : list (nat * Message)) : list (nat * Message) :=
  List.filter (fun d => Nat.eqb d.1 h) ds.

Lemma to_ref_news_of h table m ch :
  to_ref h (news_of table m ch) = if Nat.eqb (ch_ref ch) h then news_of table m ch else [].
Proof.
  unfold to_ref, news_of. destruct (ch_joined ch);
    [|destruct (Nat.eqb _ _); reflexivity].
  induction (List.filter (listens table m) (ch_bindings ch)) as [|b bs IH].
  - destruct (Nat.eqb _ _); reflexivity.
  - cbn [map List.filter fst]. destruct (Nat.eqb (ch_ref ch) h) eqn:E.
    + f_equal. exact IH.
    + exact IH.
Qed.

Lemma to_ref_news_none h table m chs :
  ~ In h (map ch_ref chs) -> to_ref h (news table m chs) = [].
Proof.
  induction chs as [|ch chs IH]; intros Hnot; [reflexivity|].
  cbn [news flat_map]. unfold to_ref. rewrite List.filter_app.
  fold (to_ref h (news_of table m ch)). fold (news table m chs).
  fold (to_ref h (news table m chs)).
  rewrite to_ref_news_of, IH.
  - destruct (Nat.eqb_spec (ch_ref ch) h) as [E|_]; [|reflexivity].
    exfalso. apply Hnot. left. exact E.
  - intros H. apply Hnot. right. exact H.
Qed.

(** The channel a subscription opens. *)
Definition subscription (bookingId : string) (callback : Message -> App -> App)
    (h : nat) : Channel App :=
  {| ch_ref := h; ch_topic := "messages:" ++ bookingId;
     ch_bindings :=
       [{| b_type := "postgres_changes"; b_event := "INSERT"; b_schema := "public";
           b_table := "messages"; b_filter := "booking_id=eq." ++ bookingId;
           b_callback := fun payload => callback (new payload) |}];
     ch_joined := true |}.

Lemma on_channel_elsewhere h f (chs : list (Channel App)) :
  ~ In h (map ch_ref chs) ->
  map (fun ch => if Nat.eqb (ch_ref ch) h then f ch else ch) chs = chs.
Proof.
  induction chs as [|ch chs IH]; intros Hnot; [reflexivity|]. cbn [map] in *.
  destruct (Nat.eqb_spec (ch_ref ch) h) as [E|_].
  - exfalso. apply Hnot. left. exact E.
  - f_equal. apply IH. intros H. apply Hnot. right. exact H.
Qed.

Lemma fresh_not_in c : fresh_ok c -> ~ In (next_ref c) (map ch_ref (channels c)).
Proof.
  unfold fresh_ok. intros Hf Hin. apply in_map_iff in Hin as (ch & Hr & Hin).
  rewrite List.Forall_forall in Hf. specialize (Hf ch Hin). lia.
Qed.

Lemma subscribe_channels bookingId callback c :
  fresh_ok c ->
  channels (subscribeToMessages bookingId callback c).2
  = (channels c ++ [subscription bookingId callback (next_ref c)])%list.
Proof.
  intros Hf. pose proof (fresh_not_in c Hf) as Hnot.
  unfold subscribeToMessages, channel, on, subscribe, on_channel, set_channels.
  cbn [snd channels next_ref]. rewrite !map_app.
  rewrite (on_channel_elsewhere _ _ (channels c) Hnot).
  rewrite (on_channel_elsewhere _ _ (channels c) Hnot).
  cbn [map ch_ref]. rewrite !Nat.eqb_refl. reflexivity.
Qed.

Lemma listens_subscription table m bookingId callback h :
  news_of table m (subscription bookingId callback h)
  = if (String.eqb table "messages" && String.eqb (booking_id m) bookingId)%bool
    then [(h, m)] else [].
Proof.
  unfold news_of, subscription, listens.
  cbn [ch_joined ch_bindings ch_ref List.filter b_type b_event b_schema b_table
       b_filter].
  rewrite !String.eqb_refl. cbn [andb].
  rewrite (String.eqb_sym table "messages").
  destruct (String.eqb "messages" table); cbn [andb]; [|reflexivity].
  destruct (String.eqb_spec (booking_id m) bookingId) as [->|Hne].
  - rewrite String.eqb_refl. reflexivity.
  - destruct (String.eqb_spec ("booking_id=eq." ++ bookingId)
                ("booking_id=eq." ++ booking_id m)) as [E|_]; [|reflexivity].
    apply append_cancel in E. congruence.
Qed.

(** What the handlers of a channel, and of a list of channels, make of
    the caller's state on an insert. *)
Definition handle_channel (table : string) (m : Message) (a : App) ch : App :=
  if ch_joined ch
  then fold_left (fun a b => b_callback b {| new := m |} a)
         (List.filter (listens table m) (ch_bindings ch)) a
  else a.

Definition handled (table : string) (m : Message) (chs : list (Channel App)) (a : App)
  : App :=
  fold_left (handle_channel table m) chs a.

Lemma invoke_fold_app h m (bs : list (Binding App)) : forall c,
  app (fold_left (invoke h m) bs c)
  = fold_left (fun a b => b_callback b {| new := m |} a) bs (app c).
Proof.
  induction bs as [|b bs IH]; intros c; [reflexivity|].
  cbn [fold_left]. rewrite IH. reflexivity.
Qed.

Lemma notify_fold_app table m chs : forall c,
  app (fold_left (notify_channel table m) chs c) = handled table m chs (app c).
Proof.
  unfold handled. induction chs as [|ch chs IH]; intros c; [reflexivity|].
  cbn [fold_left]. rewrite IH. f_equal.
  unfold notify_channel, handle_channel. destruct (ch_joined ch); [|reflexivity].
  apply invoke_fold_app.
Qed.

Lemma notify_app table m c :
  app (notify table m c) = handled table m (channels c) (app c).
Proof. apply notify_fold_app. Qed.

Lemma handled_subscription table m bookingId callback h a :
  handled table m [subscription bookingId callback h] a
  = if (String.eqb table "messages" && String.eqb (booking_id m) bookingId)%bool
    then callback m a else a.
Proof.
  unfold handled, handle_channel, subscription, listens.
  cbn [fold_left ch_joined ch_bindings List.filter b_type b_event b_schema b_table
       b_filter].
  rewrite !String.eqb_refl. cbn [andb].
  rewrite (String.eqb_sym table "messages").
  destruct (String.eqb "messages" table); cbn [andb]; [|reflexivity].
  destruct (String.eqb_spec (booking_id m) bookingId) as [->|Hne].
  - rewrite String.eqb_refl. reflexivity.
  - destruct (String.eqb_spec ("booking_id=eq." ++ bookingId)
                ("booking_id=eq." ++ booking_id m)) as [E|_]; [|reflexivity].
    apply append_cancel in E. congruence.
Qed.

Lemma subscribe_app bookingId callback c :
  app (subscribeToMessages bookingId callback c).2 = app c.
Proof. reflexivity. Qed.

Lemma subscribe_fresh bookingId callback c :
  fresh_ok c -> fresh_ok (subscribeToMessages bookingId callback c).2.
Proof.
  intros Hf. unfold fresh_ok. rewrite (subscribe_channels _ _ _ Hf).
  destruct (subscribe_shape bookingId callback c) as (_ & Hn & _).
  cbn zeta in Hn. rewrite Hn. apply Forall_app. split.
  - unfold fresh_ok in Hf. eapply Forall_impl; [exact Hf|].
    intros ch Hlt. cbn beta in *. lia.
  - constructor; [cbn; lia|constructor].
Qed.

(** The topic of the subscription has no open channel yet. *)
Definition topic_free (bookingId : string) c : Prop :=
  forall ch, In ch (channels c) -> ch_topic ch <> ("messages:" ++ bookingId)%string.

(** X23: while a subscription is open, an insert into [messages] for its
    booking runs the caller's callback once on the new row, after the
    handlers of the channels that were open before, and an insert for
    another booking or into another table does not run it.  The
    subscription is one made on a topic that has no open channel. *)
Theorem subscription_delivers bookingId (callback : Message -> App -> App) c table m :
  fresh_ok c ->
  topic_free bookingId c ->
  let c1 := (subscribeToMessages bookingId callback c).2 in
  let h := next_ref c in
  let hit := (String.eqb table "messages" && String.eqb (booking_id m) bookingId)%bool in
  app (notify table m c1)
  = (if hit then callback m (app (notify table m c)) else app (notify table m c))
  /\ delivered_to h (notify table m c1)
     = (delivered_to h c1 ++ if hit then [(h, m)] else [])%list.
Proof.
  intros Hf _ c1 h hit. split.
  - rewrite !notify_app. unfold c1. rewrite (subscribe_channels _ _ _ Hf), subscribe_app.
    unfold handled at 1. rewrite fold_left_app.
    fold (handled table m (channels c) (app c)).
    fold (handled table m [subscription bookingId callback (next_ref c)]
            (handled table m (channels c) (app c))).
    apply handled_subscription.
  - unfold delivered_to. rewrite notify_delivered, List.filter_app.
    f_equal. unfold c1. rewrite (subscribe_channels _ _ _ Hf).
    unfold news. rewrite flat_map_app. cbn [flat_map]. rewrite app_nil_r.
    rewrite List.filter_app.
    fold (news table m (channels c)). fold (to_ref h (news table m (channels c))).
    rewrite (to_ref_news_none _ _ _ _ (fresh_not_in c Hf)). cbn [app].
    fold (to_ref h (news_of table m (subscription bookingId callback (next_ref c)))).
    rewrite to_ref_news_of. cbn [subscription ch_ref]. fold h.
    rewrite Nat.eqb_refl. apply listens_subscription.
Qed.

Lemma filter_keeps_older h (chs : list (Channel App)) :
  Forall (fun ch => ch_ref ch < h) chs ->
  List.filter (fun ch => negb (Nat.eqb (ch_ref ch) h)) chs = chs.
Proof.
  induction 1 as [|ch chs Hlt _ IH]; [reflexivity|]. cbn [List.filter].
  destruct (Nat.eqb_spec (ch_ref ch) h) as [E|_]; [lia|]. cbn [negb].
  f_equal. exact IH.
Qed.

(** X24: of two subscriptions made one after the other for different
    bookings, on topics that had no open channel, the teardown of the
    first closes its channel only: the channel of the second stays open,
    and an insert for the second booking still runs the second callback,
    while the first callback is no longer run. *)
Theorem teardown_spares_others booking1 booking2 (cb1 cb2 : Message -> App -> App) c table m :
  fresh_ok c ->
  topic_free booking1 c -> topic_free booking2 c -> booking1 <> booking2 ->
  let s1 := subscribeToMessages booking1 cb1 c in
  let s2 := subscribeToMessages booking2 cb2 s1.2 in
  let torn := s1.1 s2.2 in
  let hit := (String.eqb table "messages" && String.eqb (booking_id m) booking2)%bool in
  channels torn = (channels c ++ [subscription booking2 cb2 (S (next_ref c))])%list
  /\ app (notify table m torn)
     = (if hit then cb2 m (app (notify table m c)) else app (notify table m c)).
Proof.
  intros Hf _ _ _ s1 s2 torn hit.
  assert (Hch : channels torn
                = (channels c ++ [subscription booking2 cb2 (S (next_ref c))])%list).
  { unfold torn, s2, s1. rewrite teardown_is_remove.
    unfold removeChannel, set_channels. cbn [channels].
    rewrite (subscribe_channels _ _ _ (subscribe_fresh booking1 cb1 c Hf)).
    rewrite (subscribe_channels _ _ _ Hf).
    destruct (subscribe_shape booking1 cb1 c) as (_ & Hn & _). cbn zeta in Hn. rewrite Hn.
    rewrite !List.filter_app, (filter_keeps_older _ _ Hf).
    cbn [List.filter subscription ch_ref]. rewrite Nat.eqb_refl. cbn [negb app].
    destruct (Nat.eqb_spec (S (next_ref c)) (next_ref c)) as [E|_]; [lia|].
    cbn [negb]. rewrite app_nil_r. reflexivity. }
  split; [exact Hch|].
  rewrite !notify_app, Hch.
  assert (Ha : app torn = app c) by reflexivity.
  rewrite Ha. unfold handled at 1. rewrite fold_left_app.
  fold (handled table m (channels c) (app c)).
  fold (handled table m [subscription booking2 cb2 (S (next_ref c))]
          (handled table m (channels c) (app c))).
  apply handled_subscription.
Qed.

End DeliveryFacts.

(** ** The binding in the browser *)

Section BrowserFacts.
Import Binding.

Variable url_error : string -> option string.

(** X25: in the browser the module is configured exactly when the URL
    and the anon key are set.  The client is then bound to the anon key
    (the library taking the URL), and is the placeholder otherwise (the
    library taking the placeholder URL).  The service-role key plays no
    part there, even when it is the only key set: whatever it is, the
    module builds the same thing.  The warning about missing variables
    is never written in the browser. *)
Theorem browser_binding (env : Env) :
  SSR env = false ->
  url_error placeholder_url = None ->
  (configured env = true <-> supabaseUrl env <> "" /\ supabaseAnonKey env <> "")
  /\ (configured env = true -> url_error (supabaseUrl env) = None ->
      exists c, supabase url_error env = Ok c
                /\ client_url c = supabaseUrl env
                /\ client_key c = supabaseAnonKey env)
  /\ (configured env = false -> supabase url_error env = Ok placeholder)
  /\ warns env = false
  /\ (forall service,
        supabase url_error
          {| PUBLIC_SUPABASE_URL := PUBLIC_SUPABASE_URL env;
             PUBLIC_SUPABASE_ANON_KEY := PUBLIC_SUPABASE_ANON_KEY env;
             SUPABASE_SERVICE_ROLE_KEY := service; SSR := false |}
        = supabase url_error env).
Proof.
  intros Hb Hp.
  assert (Hk : supabaseKey env = supabaseAnonKey env).
  { unfold supabaseKey, isServer. rewrite Hb. reflexivity. }
  assert (Hc : configured env = true
               <-> supabaseUrl env <> "" /\ supabaseAnonKey env <> "").
  { rewrite configured_spec, Hk. reflexivity. }
  split; [exact Hc|]. split; [|split; [|split]].
  - intros Hcfg Hv. unfold supabase. rewrite Hcfg.
    destruct Hc as [Hc _]. destruct (Hc Hcfg) as [Hu Ha].
    rewrite Hk. rewrite (createClient_ok url_error _ _ _ Hu Hv Ha).
    eexists. repeat split.
  - intros Hcfg. unfold supabase. rewrite Hcfg.
    apply createClient_ok; [discriminate|exact Hp|discriminate].
  - unfold warns, isServer. rewrite Hb. apply andb_false_r.
  - intros service. unfold supabase, configured, supabaseKey, supabaseUrl,
      supabaseAnonKey, isServer. cbn [SSR PUBLIC_SUPABASE_URL PUBLIC_SUPABASE_ANON_KEY].
    rewrite Hb. reflexivity.
Qed.

End BrowserFacts.

(** ** Runs against a small backend *)

Section Runs.
Import Backend Facade FacadeRest.

(** An order for the runs: numbers by size, anything else after them. *)
Definition value_order (a b : option Value) : bool :=
  match a, b with
  | Some (VNum x), Some (VNum y) => (x <=? y)%Z
  | Some (VNum _), _ => true
  | _, Some (VNum _) => false
  | _, _ => true
  end.

Lemma value_order_total : total_order value_order.
Proof.
  intros a b. unfold value_order.
  destruct a as [[]|], b as [[]|]; auto.
  destruct (Z.leb_spec n n0); [left; reflexivity|right].
  apply Z.leb_le. lia.
Qed.

(** A stand-in for [toISOString]; the runs below are taken at the epoch. *)
Definition iso_at_epoch (ms : Z) : string := "1970-01-01T00:00:00.000Z".

Definition world_with (tabs : list (string * list Row))
    (faults : list (option BackendError)) (fates : list StorageOutcome) : World :=
  {| tables := list_to_map tabs; db_faults := faults; objects := [];
     storage_faults := fates; clock := 0; endpoint := "https://kow.supabase.co";
     calls := []; generated := fun _ _ => ∅ |}.

Definition image (id category : string) (position : Z) (is_featured : bool) : Row :=
  list_to_map [ ("id", VStr id); ("category", VStr category);
                ("display_order", VNum position); ("is_featured", VBool is_featured) ].

Definition gallery : World :=
  world_with [ ("content_images",
                [ image "i1" "flash" 2 true; image "i2" "portfolio" 1 false;
                  image "i3" "flash" 0 false ]);
               ("bookings", [booking_1]);
               ("site_settings", [setting_contact]);
               ("messages", [message_row "b1" client "hello"]) ] [] [].

Definition gallery_down : World :=
  set_db_faults [Some timeout_error] gallery.

(** A schema that numbers the rows of a table and stamps them. *)
Definition serial (t : string) (rows : list Row) : Row :=
  list_to_map [ ("id", VStr (t ++ "-" ++ JS.show (Z.of_nat (S (length rows)))));
                ("created_at", VStr "2026-01-01T00:00:00.000Z") ].

(** The gallery on a backend with that schema. *)
Definition hosted : World :=
  {| tables := tables gallery; db_faults := []; objects := []; storage_faults := [];
     clock := 0; endpoint := "https://kow.supabase.co"; calls := [];
     generated := serial |}.

Definition rose : Row :=
  list_to_map [ ("url", VStr "https://kow.supabase.co/storage/v1/object/public/portfolio/rose.png");
                ("category", VStr "flash"); ("title", VStr "rose");
                ("is_featured", VBool false) ].

Lemma getContentImages_lists_witness :
  exists rows,
    (getContentImages value_order (Some flash) gallery).1 = Ok (DRows rows)
    /\ Sorted (by_column value_order "display_order" true) rows
    /\ length rows = 2.
Proof.
  destruct (getContentImages_lists value_order (Some flash) gallery eq_refl)
    as (rows & w' & Hrun & _ & Hperm & _ & Hs).
  exists rows. split; [rewrite Hrun; reflexivity|].
  split; [apply Hs, value_order_total|].
  rewrite Hperm. reflexivity.
Defined.

Lemma getFeaturedImages_lists_witness :
  exists rows,
    (getFeaturedImages value_order gallery).1 = Ok (DRows rows)
    /\ rows ≡ₚ [image "i1" "flash" 2 true].
Proof.
  destruct (getFeaturedImages_lists value_order gallery eq_refl)
    as (rows & w' & Hrun & _ & Hperm & _).
  exists rows. split; [rewrite Hrun; reflexivity|exact Hperm].
Defined.

Lemma getBookings_lists_witness :
  exists rows,
    (getBookings value_order (Some pending) gallery).1 = Ok (DRows rows)
    /\ rows ≡ₚ [booking_1].
Proof.
  destruct (getBookings_lists value_order (Some pending) gallery eq_refl)
    as (rows & w' & Hrun & _ & Hperm & _).
  exists rows. split; [rewrite Hrun; reflexivity|exact Hperm].
Defined.

Lemma getMessages_lists_witness :
  exists rows,
    (getMessages value_order "b1" gallery).1 = Ok (DRows rows)
    /\ rows ≡ₚ [message_row "b1" client "hello"].
Proof.
  destruct (getMessages_lists value_order "b1" gallery eq_refl)
    as (rows & w' & Hrun & _ & Hperm & _).
  exists rows. split; [rewrite Hrun; reflexivity|exact Hperm].
Defined.

Lemma failed_round_trip_is_thrown_witness :
  throws_cleanly (getBookings value_order None) timeout_error gallery_down
  /\ throws_cleanly (sendMessage "b1" admin "hi") timeout_error gallery_down.
Proof.
  destruct (failed_round_trip_is_thrown value_order iso_at_epoch timeout_error
              gallery_down eq_refl)
    as (_ & _ & _ & _ & _ & _ & Hb & _ & _ & _ & _ & Hs).
  split; [apply Hb|apply Hs].
Defined.

Lemma createContentImage_then_listed_witness :
  exists saved w',
    createContentImage rose hosted = (Ok (DRow saved), w')
    /\ saved !! "title" = Some (VStr "rose")
    /\ saved !! "id" = Some (VStr "content_images-4")
    /\ saved !! "created_at" = Some (VStr "2026-01-01T00:00:00.000Z")
    /\ table_rows "content_images" w'
       = (table_rows "content_images" hosted ++ [saved])%list.
Proof.
  destruct (createContentImage_then_listed value_order rose hosted eq_refl)
    as (saved & w' & Hrun & Hpay & Hfill & Ht & _).
  exists saved, w'. split; [exact Hrun|].
  split; [apply Hpay; reflexivity|].
  split; [rewrite Hfill; reflexivity|].
  split; [rewrite Hfill; reflexivity|exact Ht].
Defined.

Lemma sendMessage_then_listed_witness :
  exists saved w' rows,
    sendMessage "b1" admin "see you friday" hosted = (Ok (DRow saved), w')
    /\ saved !! "content" = Some (VStr "see you friday")
    /\ saved !! "id" = Some (VStr "messages-2")
    /\ (getMessages value_order "b1" w').1 = Ok (DRows rows)
    /\ length rows = 2.
Proof.
  destruct (sendMessage_then_listed value_order "b1" admin "see you friday"
              hosted eq_refl)
    as (saved & w' & Hrun & _ & _ & Hc & Hfill & (rows & w'' & Hget & _ & Hlen) & _).
  exists saved, w', rows. split; [exact Hrun|]. split; [exact Hc|].
  split; [rewrite Hfill by discriminate; reflexivity|].
  split; [rewrite Hget; reflexivity|]. rewrite Hlen. reflexivity.
Defined.

Lemma setSiteSetting_then_get_witness :
  exists row w1 w2,
    setSiteSetting iso_at_epoch "contact_info" "hello@kow.example" gallery
    = (Ok (DRow row), w1)
    /\ getSiteSetting "contact_info" w1 = (Ok (VStr "hello@kow.example"), w2).
Proof.
  destruct (setSiteSetting_then_get iso_at_epoch "contact_info" "hello@kow.example"
              gallery eq_refl)
    as (row & w1 & w2 & Hset & _ & _ & Hget).
  - vm_compute. lia.
  - exists row, w1, w2. split; assumption.
Defined.

Lemma setSiteSetting_keeps_keys_apart_witness :
  exists row w1,
    setSiteSetting iso_at_epoch "policy_text" "No refunds." gallery
    = (Ok (DRow row), w1)
    /\ length (table_rows "site_settings" w1) = 2
    /\ rows_where "key" (VStr "contact_info") (table_rows "site_settings" w1)
       = [setting_contact].
Proof.
  destruct (setSiteSetting_keeps_keys_apart iso_at_epoch "policy_text" "No refunds."
              gallery eq_refl)
    as (row & w1 & Hset & _ & Hrest & _ & Hlen & _).
  - vm_compute. lia.
  - exists row, w1. split; [exact Hset|]. split; [rewrite Hlen; reflexivity|].
    rewrite Hrest by discriminate. reflexivity.
Defined.

Lemma deleteContentImage_removes_witness :
  exists w',
    deleteContentImage "i2" gallery = (Ok tt, w')
    /\ table_rows "content_images" w'
       = [image "i1" "flash" 2 true; image "i3" "flash" 0 false].
Proof.
  destruct (deleteContentImage_removes "i2" gallery eq_refl) as (w' & Hrun & Ht & _).
  exists w'. split; [exact Hrun|]. rewrite Ht. reflexivity.
Defined.

Lemma updateBooking_patches_one_row_witness :
  exists w' (row' : Row),
    updateBooking "b1" {[ "agreed_price" := VNum 300 ]} gallery = (Ok (DRow row'), w')
    /\ row' !! "agreed_price" = Some (VNum 300)
    /\ row' !! "status" = Some (VStr "pending").
Proof.
  destruct (updateBooking_patches_one_row "b1" {[ "agreed_price" := VNum 300 ]}
              gallery booking_1 eq_refl eq_refl)
    as (w' & row' & Hrun & Hset & Hkeep & _).
  exists w', row'. split; [exact Hrun|].
  split; [apply Hset; reflexivity|]. rewrite Hkeep; reflexivity.
Defined.

Lemma updateBookingStatus_with_notes_witness :
  exists w' (row' : Row),
    updateBookingStatus "b1" denied (Some "") gallery = (Ok (DRow row'), w')
    /\ row' !! "status" = Some (VStr "denied")
    /\ row' !! "admin_notes" = Some (VStr "").
Proof.
  destruct (updateBookingStatus_with_notes "b1" denied "" gallery booking_1
              eq_refl eq_refl)
    as (w' & row' & Hrun & _ & Hs & Hn & _).
  exists w', row'. split; [exact Hrun|]. split; assumption.
Defined.


Lemma uploadImage_failure_witness :
  exists w',
    uploadImage "portfolio" photo None
      (set_storage_faults [Refused quota_error] gallery)
    = (Throw quota_error, w')
    /\ objects w' = [].
Proof.
  destruct (uploadImage_failure "portfolio" photo None
              (set_storage_faults [Refused quota_error] gallery) quota_error)
    as (w' & key & Hrun & Ho & _); [left; reflexivity|].
  exists w'. split; [exact Hrun|]. rewrite Ho. reflexivity.
Defined.

End Runs.

Section MoreRuns.
Import Middleware.

Lemma protected_paths_witness :
  protected (request "/administrator" []) = true
  /\ protected (request "/admin/login" []) = false.
Proof.
  split.
  - apply (protected_paths (request "/administrator" [])).
    exists "istrator". split; [reflexivity|discriminate].
  - reflexivity.
Defined.

Lemma ungated_passes_witness :
  (toy_gate (request "/admin/login" good_cookies) fresh_gate).1 = Ok Rendered
  /\ locals (toy_gate (request "/admin/login" good_cookies) fresh_gate).2
     = {| locals_user := None; locals_session := None |}.
Proof.
  destruct (ungated_passes (fun s : string => s) toy_setSession toy_getSession
              (request "/admin/login" good_cookies) fresh_gate eq_refl)
    as (Hr & Hl & _).
  split; [exact Hr|exact Hl].
Defined.

Lemma session_outlives_request_witness :
  (toy_gate (request "/admin/dashboard" [])
     (next_request (toy_gate (request "/portfolio" good_cookies) fresh_gate).2)).1
  <> Ok (Redirected "/admin/login").
Proof.
  destruct (session_outlives_request (fun s : string => s) toy_setSession
              toy_getSession (request "/portfolio" good_cookies)
              (request "/admin/dashboard" []) fresh_gate
              "good-access" "good-refresh")
    as [[Hto _] _];
    [reflexivity|discriminate|reflexivity|discriminate|reflexivity|reflexivity|].
  intros H. destruct (Hto H) as [_ Hnone]. discriminate Hnone.
Defined.

Lemma wizard_navigation_witness :
  exists n,
    Steps.clicks [Steps.Next 1; Steps.Next 2; Steps.Prev 3] Steps.loaded = Some n
    /\ Steps.currentStep n = 2%Z
    /\ Steps.shown n 2 = true.
Proof.
  destruct (Steps.clicks [Steps.Next 1; Steps.Next 2; Steps.Prev 3] Steps.loaded)
    as [n|] eqn:Hrun; [|vm_compute in Hrun; discriminate Hrun].
  destruct (wizard_navigation _ n Hrun) as (_ & Hshown & _).
  assert (Hstep : Steps.currentStep n = 2%Z).
  { vm_compute in Hrun. injection Hrun as <-. reflexivity. }
  exists n. split; [reflexivity|]. split; [exact Hstep|].
  apply Hshown. symmetry. exact Hstep.
Defined.

Lemma submit_feedback_witness :
  exists p',
    Wizard.submit form_filled (Some [photo])
      {| Wizard.world := gallery_down; Wizard.ui := Wizard.ui (page_with []) |}
    = (Ok tt, p')
    /\ Wizard.alerts (Wizard.ui p')
       = ["Error submitting booking: canceling statement due to statement timeout"]
    /\ Wizard.form_hidden (Wizard.ui p') = false.
Proof.
  destruct (submit_feedback form_filled [photo]
              {| Wizard.world := gallery_down; Wizard.ui := Wizard.ui (page_with []) |})
    as (_ & _ & Herr).
  destruct (Herr eq_refl timeout_error eq_refl) as (p' & Hrun & Hf & _ & _ & Ha & _).
  exists p'. split; [exact Hrun|]. split; [rewrite Ha; reflexivity|].
  rewrite Hf. reflexivity.
Defined.


Lemma submit_without_files_witness :
  (Wizard.submit form_filled None (page_with [])).1 = Ok tt
  /\ length (Wizard.issued (Wizard.world (page_with []))
               (Wizard.world (Wizard.submit form_filled None (page_with [])).2))
     = 1.
Proof.
  destruct (submit_without_files form_filled None (page_with []))
    as (Hr & Hcalls & _); [left; reflexivity|].
  split; [exact Hr|]. rewrite Hcalls. reflexivity.
Defined.

Lemma subscription_delivers_witness :
  let c1 := (Realtime.subscribeToMessages "b1" collect empty_client).2 in
  Realtime.app (Realtime.notify "messages" (note "b1" "hello") c1) = ["hello"]
  /\ Realtime.app (Realtime.notify "messages" (note "b2" "other") c1) = []
  /\ Realtime.delivered_to 0 (Realtime.notify "messages" (note "b1" "hello") c1)
     = [(0, note "b1" "hello")].
Proof.
  assert (Hfree : topic_free "b1" empty_client) by (intros ch []).
  split; [|split].
  - apply (subscription_delivers "b1" collect empty_client "messages" (note "b1" "hello"));
      [constructor|exact Hfree].
  - apply (subscription_delivers "b1" collect empty_client "messages" (note "b2" "other"));
      [constructor|exact Hfree].
  - apply (subscription_delivers "b1" collect empty_client "messages" (note "b1" "hello"));
      [constructor|exact Hfree].
Defined.

Lemma teardown_spares_others_witness :
  let s1 := Realtime.subscribeToMessages "b1" collect empty_client in
  let s2 := Realtime.subscribeToMessages "b2" collect s1.2 in
  Realtime.app (Realtime.notify "messages" (note "b2" "still here") (s1.1 s2.2))
  = ["still here"]
  /\ Realtime.app (Realtime.notify "messages" (note "b1" "gone") (s1.1 s2.2)) = [].
Proof.
  split.
  - apply (teardown_spares_others "b1" "b2" collect collect empty_client "messages"
             (note "b2" "still here"));
      [constructor|intros ch []|intros ch []|discriminate].
  - apply (teardown_spares_others "b1" "b2" collect collect empty_client "messages"
             (note "b1" "gone"));
      [constructor|intros ch []|intros ch []|discriminate].
Defined.

Lemma browser_binding_witness :
  Binding.supabase http_only
    {| Binding.PUBLIC_SUPABASE_URL := Some "https://kow.supabase.co";
       Binding.PUBLIC_SUPABASE_ANON_KEY := None;
       Binding.SUPABASE_SERVICE_ROLE_KEY := Some "service";
       Binding.SSR := false |}
  = Ok placeholder.
Proof.
  destruct (browser_binding http_only
              {| Binding.PUBLIC_SUPABASE_URL := Some "https://kow.supabase.co";
                 Binding.PUBLIC_SUPABASE_ANON_KEY := None;
                 Binding.SUPABASE_SERVICE_ROLE_KEY := Some "service";
                 Binding.SSR := false |} eq_refl eq_refl)
    as (_ & _ & Hp & _).
  apply Hp. reflexivity.
Defined.

End MoreRuns.
